(** * bl602-re: the header and function diff scripts

    A shallow embedding of [script/headerdiff.py] (debug-info type
    reconstruction, symbol linkage table, definition context) and of
    [script/funcdiff.py] (object-level similarity), with the properties
    of the specification stated over it.

    Python objects have identity and are mutated in place, so the
    reconstructed type models live in an explicit heap and are referred
    to by location; "the same instance" is equality of locations.  The
    recursion of [die_to_ctype] follows references between debug entries
    and is therefore driven by fuel; running out of fuel is an outcome of
    its own, distinct from every Python exception. *)

From Stdlib Require Import ZArith QArith String Ascii List Lia.
From Stdlib.Strings Require Import Byte.
From stdpp Require Import base option list gmap strings.

Open Scope string_scope.
Open Scope Z_scope.

(** ** Python-side values *)

(** Exceptions the scripts raise or let escape. *)
Inductive exn :=
| KeyError
| TypeError (msg : string)
| ValueError (msg : string)
| AttributeError
| IndexError
| StructError.

(** An attribute value of pyelftools: an integer (references, constants,
    locations) or a byte string (names). *)
Inductive attr_value :=
| AInt (z : Z)
| ABytes (s : string).

(** A debug-information entry: tag, offset inside its unit, attribute
    dictionary and children. *)
#[warnings="-register-all"]
Inductive DIE :=
  mkDIE (tag : string) (offset : Z) (attributes : gmap string attr_value)
        (children : list DIE).

Definition tag (d : DIE) : string := let 'mkDIE t _ _ _ := d in t.
Definition offset (d : DIE) : Z := let 'mkDIE _ o _ _ := d in o.
Definition attributes (d : DIE) : gmap string attr_value :=
  let 'mkDIE _ _ a _ := d in a.
Definition children (d : DIE) : list DIE := let 'mkDIE _ _ _ c := d in c.

(** A reference to a type model.  [CVoid] and [CEllipsis] are the two
    module-level singletons of [odiff.c]; every other model is an object
    allocated in the heap. *)
Inductive ref :=
| CVoid
| CEllipsis
| RObj (l : nat).

Global Instance ref_eq_dec : EqDecision ref.
Proof. solve_decision. Defined.

(** An insertion-ordered Python dictionary ([dict], [OrderedDict]): an
    association list without duplicate keys; assignment to a present key
    replaces the value in place, assignment to a new key appends. *)
Definition odict (K V : Type) := list (K * V).

Fixpoint dict_get {K V} `{EqDecision K} (k : K) (d : odict K V) : option V :=
  match d with
  | [] => None
  | (k', v) :: r => if decide (k = k') then Some v else dict_get k r
  end.

Fixpoint dict_set {K V} `{EqDecision K} (k : K) (v : V) (d : odict K V)
  : odict K V :=
  match d with
  | [] => [(k, v)]
  | (k', v') :: r =>
      if decide (k = k') then (k, v) :: r else (k', v') :: dict_set k v r
  end.

Definition dict_keys {K V} (d : odict K V) : list K := map fst d.

(** Modelled from the spec: the type-value classes of [odiff.c] (section 3,
    SemanticType), which are not part of the sources.  Each object keeps
    the entry it was built from in its [die] field, as the constructor
    calls of [headerdiff.py] pass it. *)
Inductive ctype_obj :=
| CPointer (die : DIE) (of_ : ref)
| CArray (die : DIE) (of_ : ref) (length : option Z)
| CStruct (die : DIE) (name : option string)
          (members : odict (option string) ref)
          (member_offsets : odict (option string) attr_value)
| CUnion (die : DIE) (name : option string)
         (members : odict (option string) ref)
| CEnum (die : DIE) (name : option string)
        (members : odict (option string) attr_value)
| CConst (die : DIE) (of_ : ref)
| CVolatile (die : DIE) (of_ : ref)
| CFunctionPtr (die : DIE) (return_type : ref)
               (args : list (ref * option string))
| CPrimitive (die : DIE) (name : string)
| CTypedef (die : DIE) (name : string) (of_ : ref).

Definition ctype_die (o : ctype_obj) : DIE :=
  match o with
  | CPointer d _ | CArray d _ _ | CStruct d _ _ _ | CUnion d _ _
  | CEnum d _ _ | CConst d _ | CVolatile d _ | CFunctionPtr d _ _
  | CPrimitive d _ | CTypedef d _ _ => d
  end.

(** Modelled from the spec: [odiff.c.CFunction] (section 3, FunctionDecl). *)
Record CFunction := mkCFunction {
  fn_die : DIE;
  fn_name : option string;
  fn_return_type : ref;
  fn_args : list (ref * option string);
  fn_static : bool
}.

(** The per-unit state of the reconstructor: the unit's [ctype_cache]
    attribute ([None] until [die_to_ctype] creates it) and the heap of
    type models. *)
Record State := mkState {
  ctype_cache : option (gmap Z ref);
  heap : list ctype_obj
}.

Definition cache_of (st : State) : gmap Z ref := default ∅ (ctype_cache st).

Definition initial_state : State := mkState None [].

(** [if not hasattr(die.cu, 'ctype_cache'): die.cu.ctype_cache = {}] *)
Definition create_cache (st : State) : State :=
  mkState (Some (cache_of st)) (heap st).

(** ** A small state-and-exception monad

    A computation ends by returning, by raising a Python exception, or
    with no Python behaviour to report: the fuel of the model ran out, or
    a location outside the heap was dereferenced (which no run of the
    script does, every reference being obtained from an allocation). *)

Inductive outcome (S A : Type) :=
| Ret (a : A) (st : S)
| Raise (e : exn) (st : S)
| OutOfFuel
| Dangling.
Arguments Ret {S A} a st.
Arguments Raise {S A} e st.
Arguments OutOfFuel {S A}.
Arguments Dangling {S A}.

Definition M (S A : Type) := S → outcome S A.

Definition ret {S A} (a : A) : M S A := fun st => Ret a st.
Definition raise {S A} (e : exn) : M S A := fun st => Raise e st.
Definition bind {S A B} (m : M S A) (k : A → M S B) : M S B :=
  fun st =>
    match m st with
    | Ret a st' => k a st'
    | Raise e st' => Raise e st'
    | OutOfFuel => OutOfFuel
    | Dangling => Dangling
    end.

Notation "'let*' x ':=' m 'in' k" := (bind m (fun x => k))
  (at level 10, x pattern, m at level 100, k at level 200).

(** [try: m except KeyError: h] *)
Definition except_KeyError {S A} (m : M S A) (h : M S A) : M S A :=
  fun st =>
    match m st with
    | Raise KeyError st' => h st'
    | o => o
    end.

(** [for x in l: acc = body acc x] *)
Fixpoint for_fold {S A B} (body : B → A → M S B) (l : list A) (acc : B)
  : M S B :=
  match l with
  | [] => ret acc
  | x :: r => let* acc' := body acc x in for_fold body r acc'
  end.

Definition for_each {S A} (body : A → M S unit) (l : list A) : M S unit :=
  for_fold (fun _ x => body x) l tt.

(** ** Attribute access *)

Definition has_attr (k : string) (d : DIE) : bool :=
  bool_decide (is_Some (attributes d !! k)).

(** [die.attributes[k].value] *)
Definition attr {S} (k : string) (d : DIE) : M S attr_value :=
  match attributes d !! k with
  | Some v => ret v
  | None => raise KeyError
  end.

(** [v.decode()] *)
Definition decode {S} (v : attr_value) : M S string :=
  match v with
  | ABytes s => ret s
  | AInt _ => raise AttributeError
  end.

(** An integer attribute used as a number or as a reference.  The parser
    gives these attributes integer values; a byte string there is an
    ill-typed entry, on which Python raises [TypeError]. *)
Definition as_int {S} (v : attr_value) : M S Z :=
  match v with
  | AInt z => ret z
  | ABytes _ => raise (TypeError "an integer is required")
  end.

Definition die_get_name {S} (die : DIE) : M S (option string) :=
  if has_attr "DW_AT_name" die
  then let* v := attr "DW_AT_name" die in
       let* s := decode v in
       ret (Some s)
  else ret None.

(** ** Heap and cache primitives *)

Definition alloc (o : ctype_obj) : M State ref :=
  fun st => Ret (RObj (List.length (heap st)))
                (mkState (ctype_cache st) (heap st ++ [o])).

Definition cache_ctype (o : ctype_obj) : M State ref :=
  let* r := alloc o in
  fun st =>
    Ret r (mkState (Some (<[offset (ctype_die o) := r]> (cache_of st)))
                   (heap st)).

Definition heap_get (st : State) (r : ref) : option ctype_obj :=
  match r with
  | RObj l => heap st !! l
  | _ => None
  end.

(** [isinstance(r, CArray)] *)
Definition is_CArray (st : State) (r : ref) : bool :=
  match heap_get st r with
  | Some (CArray _ _ _) => true
  | _ => false
  end.

Definition put_member (k : option string) (v : ref) (o : ctype_obj)
  : ctype_obj :=
  match o with
  | CStruct d n ms offs => CStruct d n (dict_set k v ms) offs
  | CUnion d n ms => CUnion d n (dict_set k v ms)
  | o => o
  end.

Definition put_member_offset (k : option string) (v : attr_value)
  (o : ctype_obj) : ctype_obj :=
  match o with
  | CStruct d n ms offs => CStruct d n ms (dict_set k v offs)
  | o => o
  end.

Definition put_enumerator (k : option string) (v : attr_value)
  (o : ctype_obj) : ctype_obj :=
  match o with
  | CEnum d n ms => CEnum d n (dict_set k v ms)
  | o => o
  end.

(** Mutation of the object a reference points to; the dictionaries
    [members] and [member_offsets] are reachable only through the
    aggregate that owns them, so they are kept inside it. *)
Definition mutate (f : ctype_obj → ctype_obj) (r : ref) : M State unit :=
  fun st =>
    match r with
    | RObj l => Ret tt (mkState (ctype_cache st) (alter f l (heap st)))
    | _ => Ret tt st
    end.

(** ** String tests on tags *)

Definition tag_is (t : string) (d : DIE) : bool := String.eqb (tag d) t.

Definition startswith (p s : string) : bool := String.prefix p s.

Definition endswith (p s : string) : bool :=
  (String.length p <=? String.length s)%nat
  && String.eqb (String.substring (String.length s - String.length p)
                                  (String.length p) s) p.

(** ** The reconstructor *)

Section Reconstructor.

(** [die.cu.get_DIE_from_refaddr], the unit's entry at a reference. *)
Variable get_DIE_from_refaddr : Z → DIE.

Section Body.

(** The recursive call of [die_to_ctype], one unit of fuel lower. *)
Variable rec : DIE → M State ref.

Definition die_get_at_type (die : DIE) : M State ref :=
  except_KeyError
    (let* v := attr "DW_AT_type" die in
     let* a := as_int v in
     rec (get_DIE_from_refaddr a))
    (ret CVoid).

Definition funclike_child (die : DIE)
  (args : list (ref * option string)) (arg_die : DIE)
  : M State (list (ref * option string)) :=
  if tag_is "DW_TAG_formal_parameter" arg_die then
    let* arg_name :=
      (if has_attr "DW_AT_name" die
       then let* v := attr "DW_AT_name" arg_die in
            let* s := decode v in
            ret (Some s)
       else ret None) in
    let* v := attr "DW_AT_type" arg_die in
    let* a := as_int v in
    let* t := rec (get_DIE_from_refaddr a) in
    ret (args ++ [(t, arg_name)])%list
  else if tag_is "DW_TAG_unspecified_parameters" arg_die then
    ret (args ++ [(CEllipsis, None)])%list
  else if tag_is "DW_TAG_variable" arg_die
          || tag_is "DW_TAG_inlined_subroutine" arg_die
          || tag_is "DW_TAG_lexical_block" arg_die
          || tag_is "DW_TAG_subprogram" arg_die
          || tag_is "DW_TAG_label" arg_die
          || startswith "DW_TAG_GNU" (tag arg_die)
          || endswith "_type" (tag arg_die) then
    ret args
  else
    raise (TypeError ("What is a " ++ tag arg_die
                      ++ " function DIE child?")).

Definition die_to_funclike_args (die : DIE)
  : M State (ref * list (ref * option string)) :=
  if negb (tag_is "DW_TAG_subroutine_type" die
           || tag_is "DW_TAG_subprogram" die) then
    raise (ValueError ("Wrong DIE tag " ++ tag die
                       ++ " for a function/funcptr"))
  else
    let* return_type := die_get_at_type die in
    let* args := for_fold (funclike_child die) (children die) [] in
    ret (return_type, args).

Definition array_length_step (array_length : option Z) (child_die : DIE)
  : M State (option Z) :=
  if tag_is "DW_TAG_subrange_type" child_die
     && has_attr "DW_AT_upper_bound" child_die then
    let* v := attr "DW_AT_upper_bound" child_die in
    let* z := as_int v in
    ret (Some (z + 1))
  else ret array_length.

Definition struct_member (struct : ref) (memb_die : DIE) : M State unit :=
  if tag_is "DW_TAG_member" memb_die then
    let* memb_name := die_get_name memb_die in
    let* t := die_get_at_type memb_die in
    let* _ := mutate (put_member memb_name t) struct in
    let* loc := attr "DW_AT_data_member_location" memb_die in
    mutate (put_member_offset memb_name loc) struct
  else ret tt.

Definition union_member (union : ref) (memb_die : DIE) : M State unit :=
  if tag_is "DW_TAG_member" memb_die then
    let* t := die_get_at_type memb_die in
    let* memb_name := die_get_name memb_die in
    mutate (put_member memb_name t) union
  else ret tt.

Definition enum_member (enum : ref) (memb_die : DIE) : M State unit :=
  if tag_is "DW_TAG_enumerator" memb_die then
    let* v := attr "DW_AT_const_value" memb_die in
    let* memb_name := die_get_name memb_die in
    mutate (put_enumerator memb_name v) enum
  else ret tt.

(** The branches of [die_to_ctype], one per kind of entry. *)

Definition pointer_type (die : DIE) : M State ref :=
  let* of_ := die_get_at_type die in
  let* bypass :=
    (if has_attr "DW_AT_type" die
     then let* v := attr "DW_AT_type" die in
          let* a := as_int v in
          ret (tag_is "DW_TAG_subroutine_type" (get_DIE_from_refaddr a))
     else ret false) in
  if bypass : bool then ret of_
  else cache_ctype (CPointer die of_).

Definition array_type (die : DIE) : M State ref :=
  let* array_length := for_fold array_length_step (children die) None in
  let* of_ := die_get_at_type die in
  cache_ctype (CArray die of_ array_length).

Definition structure_type (die : DIE) : M State ref :=
  let* name := die_get_name die in
  let* struct := cache_ctype (CStruct die name [] []) in
  let* _ := for_each (struct_member struct) (children die) in
  ret struct.

Definition union_type (die : DIE) : M State ref :=
  let* name := die_get_name die in
  let* union := cache_ctype (CUnion die name []) in
  let* _ := for_each (union_member union) (children die) in
  ret union.

Definition enumeration_type (die : DIE) : M State ref :=
  let* name := die_get_name die in
  let* enum := cache_ctype (CEnum die name []) in
  let* _ := for_each (enum_member enum) (children die) in
  ret enum.

Definition cv_type (die : DIE) : M State ref :=
  let* of_ := die_get_at_type die in
  let* is_array := (fun st => Ret (is_CArray st of_) st) in
  if is_array : bool then ret of_
  else if tag_is "DW_TAG_const_type" die
       then cache_ctype (CConst die of_)
       else cache_ctype (CVolatile die of_).

Definition subroutine_type (die : DIE) : M State ref :=
  let* ra := die_to_funclike_args die in
  cache_ctype (CFunctionPtr die (fst ra) (snd ra)).

Definition base_type (die : DIE) : M State ref :=
  let* v := attr "DW_AT_name" die in
  let* name := decode v in
  let name := if String.eqb name "_Bool" then "bool" else name in
  cache_ctype (CPrimitive die name).

Definition typedef (die : DIE) : M State ref :=
  let* v := attr "DW_AT_name" die in
  let* name := decode v in
  let* of_ := die_get_at_type die in
  cache_ctype (CTypedef die name of_).

Definition die_to_ctype_kind (die : DIE) : M State ref :=
  if tag_is "DW_TAG_pointer_type" die then pointer_type die
  else if tag_is "DW_TAG_array_type" die then array_type die
  else if tag_is "DW_TAG_structure_type" die then structure_type die
  else if tag_is "DW_TAG_union_type" die then union_type die
  else if tag_is "DW_TAG_enumeration_type" die then enumeration_type die
  else if tag_is "DW_TAG_const_type" die
          || tag_is "DW_TAG_volatile_type" die then cv_type die
  else if tag_is "DW_TAG_subroutine_type" die then subroutine_type die
  else if tag_is "DW_TAG_base_type" die then base_type die
  else if tag_is "DW_TAG_typedef" die then typedef die
  else raise (TypeError ("What is a type " ++ tag die ++ "?")).

(** One activation of [die_to_ctype]: create the unit's cache if it
    has none, answer from the cache, else build by kind. *)
Definition die_to_ctype_body (die : DIE) : M State ref :=
  fun st =>
    let st := create_cache st in
    match cache_of st !! offset die with
    | Some r => Ret r st
    | None => die_to_ctype_kind die st
    end.

End Body.

Fixpoint die_to_ctype (fuel : nat) (die : DIE) : M State ref :=
  match fuel with
  | O => fun _ => OutOfFuel
  | S n => die_to_ctype_body (die_to_ctype n) die
  end.

End Reconstructor.

(** ** The symbol linkage table *)

Definition STB_LOCAL : Z := 0.
Definition STT_OBJECT : Z := 1.
Definition STT_FUNC : Z := 2.

(** [ELF_SYM_STRUCT.size] for the format ["<I8xB"]: 4 + 8 + 1 bytes. *)
Definition ELF_SYM_STRUCT_size : nat := 13.

Definition byte_val (b : byte) : Z := Z.of_N (Byte.to_N b).

(** [ELF_SYM_STRUCT.unpack]: a little-endian 32-bit word, eight bytes of
    padding, one byte; any other length is a [struct.error]. *)
Definition ELF_SYM_STRUCT_unpack (b : list byte) : exn + (Z * Z) :=
  match b with
  | [b0; b1; b2; b3; _; _; _; _; _; _; _; _; b12] =>
      inr (Z.lor (byte_val b0)
             (Z.lor (Z.shiftl (byte_val b1) 8)
                (Z.lor (Z.shiftl (byte_val b2) 16)
                       (Z.shiftl (byte_val b3) 24))),
           byte_val b12)
  | _ => inl StructError
  end.

Record SymbolTableSection := mkSymtab {
  sh_entsize : nat;
  sh_offset : nat;
  num_symbols : nat;
  stream : list byte;
  (** [symtab.stringtable.get_string] *)
  get_string : Z → string;
  _static_cache : option (gmap string bool)
}.

(** [range(0, stop, step)] for a positive step. *)
Definition range_step (stop step : nat) : list nat :=
  map (fun k => k * step)%nat (seq 0 ((stop + step - 1) / step)%nat).

Definition is_func_or_object (st_info : Z) : bool :=
  (Z.land st_info 15 =? STT_FUNC) || (Z.land st_info 15 =? STT_OBJECT).

Fixpoint scan_symbols (strtab : Z → string) (buf : list byte)
  (positions : list nat) (static : gmap string bool)
  : exn + gmap string bool :=
  match positions with
  | [] => inr static
  | pos :: rest =>
      match ELF_SYM_STRUCT_unpack (take ELF_SYM_STRUCT_size (drop pos buf)) with
      | inl e => inl e
      | inr (st_name, st_info) =>
          scan_symbols strtab buf rest
            (if is_func_or_object st_info
             then <[strtab st_name := (Z.shiftr st_info 4 =? STB_LOCAL)]> static
             else static)
      end
  end.

(** The table built by the first call of [is_static]. *)
Definition build_static_cache (symtab : SymbolTableSection)
  : exn + gmap string bool :=
  let entsize := sh_entsize symtab in
  let buf := take (entsize * num_symbols symtab)
                  (drop (sh_offset symtab) (stream symtab)) in
  if (entsize =? 0)%nat
  then inl (ValueError "range() arg 3 must not be zero")
  else scan_symbols (get_string symtab) buf
         (range_step (List.length buf) entsize) ∅.

Definition set_static_cache (symtab : SymbolTableSection)
  (c : gmap string bool) : SymbolTableSection :=
  mkSymtab (sh_entsize symtab) (sh_offset symtab) (num_symbols symtab)
           (stream symtab) (get_string symtab) (Some c).

(** [is_static(symtab, name)]: the pair (present, local binding) and the
    table with its cache filled in.  A name that is [None] is in no
    table. *)
Definition is_static (symtab : SymbolTableSection) (name : option string)
  : exn + (bool * bool * SymbolTableSection) :=
  let cached :=
    match _static_cache symtab with
    | Some c => inr (c, symtab)
    | None =>
        match build_static_cache symtab with
        | inl e => inl e
        | inr c => inr (c, set_static_cache symtab c)
        end
    end in
  match cached with
  | inl e => inl e
  | inr (c, symtab') =>
      match name ≫= (fun n => c !! n) with
      | Some local => inr (true, local, symtab')
      | None => inr (false, false, symtab')
      end
  end.

(** ** The definition context *)

Record Context := mkContext {
  ctx_name : string;
  funcs : gmap (option string) (nat * bool)
}.

(** Everything one run over a library mutates: the unit's type models,
    the heap of [CFunction] objects, the context and the symbol table. *)
Record World := mkWorld {
  types : State;
  fheap : list CFunction;
  ctx : Context;
  symtab : SymbolTableSection
}.

Definition lift_types {A} (m : M State A) : M World A :=
  fun w =>
    match m (types w) with
    | Ret a st => Ret a (mkWorld st (fheap w) (ctx w) (symtab w))
    | Raise e st => Raise e (mkWorld st (fheap w) (ctx w) (symtab w))
    | OutOfFuel => OutOfFuel
    | Dangling => Dangling
    end.

(** Reading the fields of the function object behind a reference. *)
Definition deref (f : nat) : M World CFunction :=
  fun w =>
    match fheap w !! f with
    | Some fd => Ret fd w
    | None => Dangling
    end.

(** [CFunction(...)]: a new object. *)
Definition new_func (fd : CFunction) : M World nat :=
  fun w => Ret (List.length (fheap w))
               (mkWorld (types w) (fheap w ++ [fd]) (ctx w) (symtab w)).

Definition mutate_func (g : CFunction → CFunction) (f : nat) : M World unit :=
  fun w => Ret tt (mkWorld (types w) (alter g f (fheap w)) (ctx w) (symtab w)).

Definition set_return_type (t : ref) (fd : CFunction) : CFunction :=
  mkCFunction (fn_die fd) (fn_name fd) t (fn_args fd) (fn_static fd).

Definition set_args (a : list (ref * option string)) (fd : CFunction)
  : CFunction :=
  mkCFunction (fn_die fd) (fn_name fd) (fn_return_type fd) a (fn_static fd).

(** [self.funcs[k] = v] *)
Definition set_funcs (k : option string) (v : nat * bool) : M World unit :=
  fun w =>
    Ret tt (mkWorld (types w) (fheap w)
              (mkContext (ctx_name (ctx w)) (<[k := v]> (funcs (ctx w))))
              (symtab w)).

(** How an f-string prints an optional name. *)
Definition str_of_name (n : option string) : string :=
  match n with
  | Some s => s
  | None => "None"
  end.

Definition odr_message (func_name : option string) (context : string)
  : string :=
  "ODR violation: function " ++ str_of_name func_name
  ++ " is defined twice in context " ++ context.

(** [Context.func] *)
Definition func (func_name : option string) : M World (option nat) :=
  fun w => Ret (fst <$> funcs (ctx w) !! func_name) w.

(** [Context.decl_func] *)
Definition decl_func (f : nat) : M World unit :=
  let* fd := deref f in
  set_funcs (fn_name fd) (f, false).

(** [Context.def_func] *)
Definition def_func (funcdef : nat) (inline : bool) : M World unit :=
  let* fd := deref funcdef in
  fun w =>
    match funcs (ctx w) !! fn_name fd with
    | None => set_funcs (fn_name fd) (funcdef, true) w
    | Some (f, defined) =>
        if defined : bool then
          if inline then Ret tt w
          else Raise (ValueError (odr_message (fn_name fd) (ctx_name (ctx w)))) w
        else
          (let* fd1 := deref funcdef in
           let* _ := mutate_func (set_return_type (fn_return_type fd1)) f in
           let* fd2 := deref funcdef in
           mutate_func (set_args (fn_args fd2)) f) w
    end.

Definition is_static_w (name : option string) : M World (bool * bool) :=
  fun w =>
    match is_static (symtab w) name with
    | inl e => Raise e w
    | inr (r, symtab') => Ret r (mkWorld (types w) (fheap w) (ctx w) symtab')
    end.

Section Classifier.

Variable get_DIE_from_refaddr : Z → DIE.

Definition new_func_from (fuel : nat) (die : DIE)
  (func_name : option string) (static : bool) : M World nat :=
  let* ra := lift_types (die_to_funclike_args get_DIE_from_refaddr
                           (die_to_ctype get_DIE_from_refaddr fuel) die) in
  new_func (mkCFunction die func_name (fst ra) (snd ra) static).

Definition die_to_ctype_or_func (fuel : nat) (die : DIE)
  : M World (ref + nat) :=
  if negb (tag_is "DW_TAG_subprogram" die) then
    let* t := lift_types (die_to_ctype get_DIE_from_refaddr fuel die) in
    ret (inl t)
  else
    let* func_name := die_get_name die in
    let* present := is_static_w func_name in
    if snd present : bool then
      let* cfunc := new_func_from fuel die func_name true in
      ret (inr cfunc)
    else if fst present : bool then
      let* cfunc := new_func_from fuel die func_name false in
      let* _ := def_func cfunc (has_attr "DW_AT_inline" die) in
      ret (inr cfunc)
    else
      let* known := func func_name in
      match known with
      | Some cfunc => ret (inr cfunc)
      | None =>
          let* cfunc := new_func_from fuel die func_name false in
          let* _ := decl_func cfunc in
          ret (inr cfunc)
      end.

End Classifier.

(** ** The assembly equivalence pipeline ([funcdiff.py]) *)

Definition is_funcion_section (name : string) : bool :=
  startswith "text." name || startswith "tcm_code" name.

(** [sum(l)]: left to right, starting from 0. *)
Definition py_sum (l : list Q) : Q := fold_left Qplus l 0%Q.

(** Similarities are Python numbers (the integers 0 and 1, or the ratio
    the diff-table renderer returns); they are modelled as exact
    rationals, so [s == 1] is [Qeq_bool s 1] and [/] is exact division. *)
Definition mean_similarity (similarities : list Q) : Q :=
  match similarities with
  | [] => 1%Q
  | _ => (py_sum similarities / inject_Z (Z.of_nat (List.length similarities)))%Q
  end.

Definition all_one (similarities : list Q) : bool :=
  forallb (fun s => Qeq_bool s 1%Q) similarities.

Section FuncDiff.

(** The collaborators of [odiff]: the assembly function model, its
    equivalence predicate, the diff-table renderer and the HTML pieces. *)
Variable AsmFunction : Type.
Variable mkFunction : list string → AsmFunction.
Variable fname : AsmFunction → string.
Variable equivalent : AsmFunction → AsmFunction → bool.
Variable make_diff_table : AsmFunction → AsmFunction → string * Q.
Variable listing : AsmFunction → string.
Variable details : string → string → string → Q → string → string.

(** The loop filling [vendor_funcs] / [re_funcs] from the sections of
    the disassembly, each already split into lines. *)
Fixpoint collect_funcs (sections : list (list string))
  (acc : odict string AsmFunction) : exn + odict string AsmFunction :=
  match sections with
  | [] => inr acc
  | lines :: rest =>
      match lines with
      | [] => inl IndexError
      | l0 :: _ =>
          if negb (is_funcion_section l0) then collect_funcs rest acc
          else let f := mkFunction lines in
               collect_funcs rest (dict_set (fname f) f acc)
      end
  end.

(** One iteration of the comparison loop: status, content and
    similarity of a vendor function. *)
Definition diff_function (re_funcs : odict string AsmFunction)
  (func_name : string) (vf : AsmFunction) : string * string * Q :=
  match dict_get func_name re_funcs with
  | None => ("missing", listing vf, 0%Q)
  | Some rf =>
      if equivalent vf rf then ("equivalent", listing vf, 1%Q)
      else let '(content, similarity) := make_diff_table vf rf in
           ("different", content, similarity)
  end.

Definition diff_loop (objname : string) (re_funcs : odict string AsmFunction)
  (vendor_funcs : odict string AsmFunction) (acc : string * list Q)
  : string * list Q :=
  fold_left
    (fun '(html, similarities) '(func_name, vf) =>
       let '(status, content, similarity) :=
         diff_function re_funcs func_name vf in
       (html ++ details status objname func_name similarity content,
        (similarities ++ [similarity])%list))
    vendor_funcs acc.

(** [diff_objects], from the two disassemblies on. *)
Definition diff_objects (objname : string)
  (vendor_sections re_sections : list (list string))
  : exn + (string * Q * bool) :=
  match collect_funcs vendor_sections [] with
  | inl e => inl e
  | inr vendor_funcs =>
      match collect_funcs re_sections [] with
      | inl e => inl e
      | inr re_funcs =>
          let '(html, similarities) :=
            diff_loop objname re_funcs vendor_funcs ("", []) in
          inr (html, mean_similarity similarities, all_one similarities)
      end
  end.


End FuncDiff.

(** * Concrete inputs *)

Definition mk (t : string) (o : Z) (a : list (string * attr_value))
  (c : list DIE) : DIE :=
  mkDIE t o (list_to_map a) c.

Definition empty_symtab : SymbolTableSection :=
  mkSymtab 16 0 0 [] (fun _ => "") None.

Module ContextExamples.

(** [void f(int)] as a declaration, [void f(int x)] as two definitions
    and as an inline duplicate, all built from the same entry. *)
Definition f_die : DIE := mk "DW_TAG_subprogram" 64 [("DW_AT_name", ABytes "f")] [].
Definition f_decl : CFunction := mkCFunction f_die (Some "f") CVoid [(RObj 0, None)] false.
Definition f_def : CFunction := mkCFunction f_die (Some "f") CVoid [(RObj 0, Some "x")] false.
Definition f_def' : CFunction := mkCFunction f_die (Some "f") CVoid [(RObj 0, Some "y")] false.

Definition objects : list CFunction := [f_decl; f_def; f_def'].

Definition world_with (fs : list (option string * (nat * bool))) : World :=
  mkWorld initial_state objects (mkContext "vendor_lib" (list_to_map fs))
          empty_symtab.

Definition declared : World := world_with [(Some "f", (0%nat, false))].
Definition defined : World := world_with [(Some "f", (1%nat, true))].

End ContextExamples.

Module FuncDiffExample.

(** Scenario A: the vendor object defines [foo] and [bar], the candidate
    only [foo], with the same lines.  A function is its list of lines
    and is named by the first one. *)
Definition AsmFunction : Type := list string.
Definition mkFunction (lines : list string) : AsmFunction := lines.
Definition fname (f : AsmFunction) : string := hd "" f.
Definition equivalent (a b : AsmFunction) : bool := bool_decide (a = b).
Definition make_diff_table (a b : AsmFunction) : string * Q := ("", 1 # 2).
Definition listing (f : AsmFunction) : string := String.concat "" f.
Definition details (status objname func_name : string) (similarity : Q)
  (content : string) : string := status ++ " " ++ func_name ++ ";".

Definition vendor_sections : list (list string) :=
  [ ["text.foo:"; "   0: 8082  ret"];
    ["comment:"; "   0: 4347  .word"];
    ["text.bar:"; "   0: 4501  li a0,0"; "   2: 8082  ret"] ].
Definition re_sections : list (list string) :=
  [ ["text.foo:"; "   0: 8082  ret"] ].

End FuncDiffExample.

(** ** The symbol table read record by record

    The view of the table the specification takes: a sequence of
    fixed-size records, each with a name and a type. *)

(** The name and binding a record contributes, if its type is function
    or object. *)
Definition record_entry (strtab : Z → string) (r : list byte)
  : option (string * bool) :=
  match ELF_SYM_STRUCT_unpack (take ELF_SYM_STRUCT_size r) with
  | inr (st_name, st_info) =>
      if is_func_or_object st_info
      then Some (strtab st_name, Z.shiftr st_info 4 =? STB_LOCAL)
      else None
  | inl _ => None
  end.

Definition classifiable_names (strtab : Z → string) (recs : list (list byte))
  : list string :=
  omap (fun r => fst <$> record_entry strtab r) recs.

(** Whether a queried name is one of the given names. *)
Definition names_include (names : list string) (name : option string) : bool :=
  match name with
  | Some n => bool_decide (n ∈ names)
  | None => false
  end.

Definition add_record (strtab : Z → string) (static : gmap string bool)
  (r : list byte) : gmap string bool :=
  match record_entry strtab r with
  | Some (n, l) => <[n := l]> static
  | None => static
  end.

(** The section made of the records [recs], found at offset
    [length before] of the file, with its cache not yet built. *)
Definition symtab_of (strtab : Z → string) (entsize : nat)
  (before : list byte) (recs : list (list byte)) (after : list byte)
  : SymbolTableSection :=
  mkSymtab entsize (List.length before) (List.length recs)
           (before ++ concat recs ++ after)%list strtab None.

Module SymtabExample.

Definition strtab (i : Z) : string :=
  if i =? 1 then "main" else if i =? 6 then "counter"
  else if i =? 14 then "helper" else "".

(** A 16-byte record with the given name index and info byte. *)
Definition sym (st_name st_info : byte) : list byte :=
  [st_name; x00; x00; x00; x00; x00; x00; x00;
   x00; x00; x00; x00; st_info; x00; x01; x00].

(** the null symbol, a section symbol, the global function [main], the
    global object [counter], the local function [helper], a file symbol *)
Definition recs : list (list byte) :=
  [ sym x00 x00; sym x00 x03; sym x01 x12; sym x06 x11; sym x0e x02;
    sym x00 x04 ].

Definition table : SymbolTableSection :=
  symtab_of strtab 16 [x7f; x45; x4c; x46] recs [xff].

End SymtabExample.

Module TypeExamples.

(** One compilation unit.
<<
    10  int
    20  pointer to 30
    30  struct node_t { node_t *next; int value; }
    40  signature void(int x) (its parameter entry is named)
    50  pointer to 40
    60  int[3]
    70  const 60
    80  void f(int)          (function, its parameter unnamed)
    90  struct bits_t { int flag : 1; }   (bit-field located by
                                            DW_AT_data_bit_offset)
   100  signature void(struct bits_t)
   110  pointer to 100
>> *)
Definition d_int : DIE :=
  mk "DW_TAG_base_type" 10 [("DW_AT_name", ABytes "int")] [].
Definition d_node_ptr : DIE :=
  mk "DW_TAG_pointer_type" 20 [("DW_AT_type", AInt 30)] [].
Definition d_next : DIE :=
  mk "DW_TAG_member" 31
     [("DW_AT_name", ABytes "next"); ("DW_AT_type", AInt 20);
      ("DW_AT_data_member_location", AInt 0)] [].
Definition d_value : DIE :=
  mk "DW_TAG_member" 32
     [("DW_AT_name", ABytes "value"); ("DW_AT_type", AInt 10);
      ("DW_AT_data_member_location", AInt 4)] [].
Definition d_node : DIE :=
  mk "DW_TAG_structure_type" 30 [("DW_AT_name", ABytes "node_t")]
     [d_next; d_value].
Definition d_param_x : DIE :=
  mk "DW_TAG_formal_parameter" 41
     [("DW_AT_name", ABytes "x"); ("DW_AT_type", AInt 10)] [].
Definition d_callback : DIE :=
  mk "DW_TAG_subroutine_type" 40 [("DW_AT_prototyped", AInt 1)] [d_param_x].
Definition d_callback_ptr : DIE :=
  mk "DW_TAG_pointer_type" 50 [("DW_AT_type", AInt 40)] [].
Definition d_int3 : DIE :=
  mk "DW_TAG_array_type" 60 [("DW_AT_type", AInt 10)]
     [mk "DW_TAG_subrange_type" 61 [("DW_AT_upper_bound", AInt 2)] []].
Definition d_const_int3 : DIE :=
  mk "DW_TAG_const_type" 70 [("DW_AT_type", AInt 60)] [].
Definition d_param_unnamed : DIE :=
  mk "DW_TAG_formal_parameter" 81 [("DW_AT_type", AInt 10)] [].
Definition d_f : DIE :=
  mk "DW_TAG_subprogram" 80
     [("DW_AT_name", ABytes "f"); ("DW_AT_declaration", AInt 1)]
     [d_param_unnamed].
Definition d_flag : DIE :=
  mk "DW_TAG_member" 91
     [("DW_AT_name", ABytes "flag"); ("DW_AT_type", AInt 10);
      ("DW_AT_bit_size", AInt 1); ("DW_AT_data_bit_offset", AInt 0)] [].
Definition d_bits : DIE :=
  mk "DW_TAG_structure_type" 90 [("DW_AT_name", ABytes "bits_t")] [d_flag].
Definition d_param_bits : DIE :=
  mk "DW_TAG_formal_parameter" 101 [("DW_AT_type", AInt 90)] [].
Definition d_handler : DIE :=
  mk "DW_TAG_subroutine_type" 100 [("DW_AT_prototyped", AInt 1)]
     [d_param_bits].
Definition d_handler_ptr : DIE :=
  mk "DW_TAG_pointer_type" 110 [("DW_AT_type", AInt 100)] [].

Definition entries : list DIE :=
  [d_int; d_node_ptr; d_node; d_callback; d_callback_ptr; d_int3;
   d_const_int3; d_f; d_bits; d_handler; d_handler_ptr].

(** [get_DIE_from_refaddr] of the unit. *)
Definition cu (a : Z) : DIE :=
  default (mk "DW_TAG_padding" a [] [])
          (List.find (fun d => offset d =? a) entries).

End TypeExamples.

(** ** State invariants of the reconstructor *)

(** [m] keeps [P]: from a state where [P] holds, [m] ends, by return or
    by exception, in a state where [P] holds. *)
Definition ends_in {A} (P : State → Prop) (out : outcome State A) : Prop :=
  match out with
  | Ret _ st' | Raise _ st' => P st'
  | _ => True
  end.

Inductive stable {A} (P : State → Prop) (m : M State A) : Prop :=
  stable_intro (run : ∀ st, P st → ends_in P (m st)).

(** The cache of the unit maps the offset [o] to the instance [r]. *)
Definition cached (o : Z) (r : ref) (st : State) : Prop :=
  cache_of st !! o = Some r.

(** Whatever [m] returns is, in the state it leaves, the instance cached
    for the offset [o]. *)
Definition returns_cached (o : Z) (m : M State ref) : Prop :=
  ∀ st r st', m st = Ret r st' → cached o r st'.

(** ** Shapes of entries *)



(** The entry at [p] is a pointer to the entry at [o]. *)
Definition pointer_to (cu : Z → DIE) (o p : Z) : Prop :=
  tag (cu p) = "DW_TAG_pointer_type"
  ∧ offset (cu p) = p
  ∧ attributes (cu p) !! "DW_AT_type" = Some (AInt o).







(** While the structure at offset [o] is being filled in: it is cached as
    the object at [l], and every cached pointer entry to it is a Pointer
    model whose pointee is that object. *)
Definition filling (cu : Z → DIE) (o : Z) (l : nat) (st : State) : Prop :=
  cache_of st !! o = Some (RObj l)
  ∧ ∀ p q, pointer_to cu o p → cache_of st !! p = Some q →
           ∃ lq, q = RObj lq
                 ∧ heap st !! lq = Some (CPointer (cu p) (RObj l)).



(** ** Invariants of the heap and of the cache *)

(** A model that is never filled in after its construction: every kind
    but the three aggregates. *)
Definition immutable (obj : ctype_obj) : Prop :=
  match obj with
  | CStruct _ _ _ _ | CUnion _ _ _ | CEnum _ _ _ => False
  | _ => True
  end.

(** The object at [l] is [obj]. *)
Definition holds (l : nat) (obj : ctype_obj) (st : State) : Prop :=
  heap st !! l = Some obj.

(** The heap has at least [n] objects. *)
Definition at_least (n : nat) (st : State) : Prop :=
  (n ≤ List.length (heap st))%nat.

(** Every entry of the cache refers to an object of the heap that was
    built from an entry at that offset. *)
Definition cache_consistent (st : State) : Prop :=
  ∀ o r, cache_of st !! o = Some r →
    ∃ l obj, r = RObj l ∧ heap st !! l = Some obj
             ∧ offset (ctype_die obj) = o.

Module MoreTypeExamples.

(** The state after [int] (entry 10) has been reconstructed. *)
Definition after_int : State :=
  mkState (Some {[ 10 := RObj 0 ]}) [CPrimitive TypeExamples.d_int "int"].

End MoreTypeExamples.

(** ** Children that matter to the array and enumeration kinds *)

(** A subrange child that gives an upper bound. *)
Definition has_upper_bound (c : DIE) : Prop :=
  tag c = "DW_TAG_subrange_type"
  ∧ is_Some (attributes c !! "DW_AT_upper_bound").



(** The tags [die_to_ctype] has a branch for. *)
Definition type_tags : list string :=
  ["DW_TAG_pointer_type"; "DW_TAG_array_type"; "DW_TAG_structure_type";
   "DW_TAG_union_type"; "DW_TAG_enumeration_type"; "DW_TAG_const_type";
   "DW_TAG_volatile_type"; "DW_TAG_subroutine_type"; "DW_TAG_base_type";
   "DW_TAG_typedef"].

Module KindExamples.

(** The unit of [TypeExamples] with three more entries.
<<
     120  pointer to 90 (struct bits_t, whose reconstruction fails)
     130  enum color { RED = 0, GREEN = 1, BLUE = 4 }
     140  _Bool
>> *)
Definition d_bits_ptr : DIE :=
  mk "DW_TAG_pointer_type" 120 [("DW_AT_type", AInt 90)] [].
Definition d_color : DIE :=
  mk "DW_TAG_enumeration_type" 130 [("DW_AT_name", ABytes "color")]
     [ mk "DW_TAG_enumerator" 131
          [("DW_AT_name", ABytes "RED"); ("DW_AT_const_value", AInt 0)] [];
       mk "DW_TAG_enumerator" 132
          [("DW_AT_name", ABytes "GREEN"); ("DW_AT_const_value", AInt 1)] [];
       mk "DW_TAG_enumerator" 133
          [("DW_AT_name", ABytes "BLUE"); ("DW_AT_const_value", AInt 4)] [] ].
Definition d_bool : DIE :=
  mk "DW_TAG_base_type" 140 [("DW_AT_name", ABytes "_Bool")] [].

Definition cu (a : Z) : DIE :=
  if a =? 120 then d_bits_ptr
  else if a =? 130 then d_color
  else if a =? 140 then d_bool
  else TypeExamples.cu a.

End KindExamples.

(** ** Well-formed worlds *)

(** Every record of the context refers to a function object of the heap,
    and that object bears the name the record is stored under. *)
Definition records_named (w : World) : Prop :=
  ∀ k f d, funcs (ctx w) !! k = Some (f, d) →
    ∃ fd, fheap w !! f = Some fd ∧ fn_name fd = k.

(** The function objects of [w] are still in [w'], possibly with another
    signature but with the entry, name and linkage they had. *)
Definition functions_kept (w w' : World) : Prop :=
  ∀ g gd, fheap w !! g = Some gd →
    ∃ gd', fheap w' !! g = Some gd'
           ∧ fn_die gd' = fn_die gd ∧ fn_name gd' = fn_name gd
           ∧ fn_static gd' = fn_static gd.

Module ClassifierExamples.

(** An object file whose symbol table holds the local function [helper]
    and the global function [f]. *)
Definition strtab (i : Z) : string :=
  if i =? 1 then "helper" else if i =? 8 then "f" else "".

Definition table : SymbolTableSection :=
  symtab_of strtab 16 []
    [SymtabExample.sym x00 x00; SymtabExample.sym x01 x02;
     SymtabExample.sym x08 x12] [].

(** The table once its cache is built. *)
Definition scanned_table : SymbolTableSection :=
  set_static_cache table (<["f" := false]> (<["helper" := true]> ∅)).

Definition d_helper : DIE :=
  mk "DW_TAG_subprogram" 200 [("DW_AT_name", ABytes "helper")] [].

(** [void f(int x)], defined in this object. *)
Definition d_f_def : DIE :=
  mk "DW_TAG_subprogram" 210 [("DW_AT_name", ABytes "f")]
     [mk "DW_TAG_formal_parameter" 211
         [("DW_AT_name", ABytes "x"); ("DW_AT_type", AInt 10)] []].

(** The context holds a declaration of [f], from another object. *)
Definition world : World :=
  mkWorld initial_state [ContextExamples.f_decl]
          (mkContext "vendor_lib" {[ Some "f" := (0%nat, false) ]}) table.

End ClassifierExamples.

(** [m] keeps the property [P] of worlds, whether it returns or raises. *)
Inductive keeps {A} (P : World → Prop) (m : M World A) : Prop :=
  keeps_intro (run : ∀ w, P w →
                 match m w with
                 | Ret _ w' | Raise _ w' => P w'
                 | _ => True
                 end).

(** ** Sections of a disassembly *)

(** A section that holds a function: its first line names a code
    section. *)
Definition code_section (lines : list string) : bool :=
  match lines with
  | l0 :: _ => is_funcion_section l0
  | [] => false
  end.

(** * Properties *)

(** ** Definition context *)

Section ContextFacts.

Lemma def_func_new w funcdef fd inline :
  fheap w !! funcdef = Some fd →
  funcs (ctx w) !! fn_name fd = None →
  def_func funcdef inline w = set_funcs (fn_name fd) (funcdef, true) w.
Proof.
  intros Hfd Hnone. unfold def_func, bind, deref.
  rewrite Hfd. by rewrite Hnone.
Qed.

Lemma def_func_defined_inline w funcdef fd f :
  fheap w !! funcdef = Some fd →
  funcs (ctx w) !! fn_name fd = Some (f, true) →
  def_func funcdef true w = Ret tt w.
Proof.
  intros Hfd Hdef. unfold def_func, bind, deref.
  rewrite Hfd. by rewrite Hdef.
Qed.

Lemma def_func_defined_odr w funcdef fd f :
  fheap w !! funcdef = Some fd →
  funcs (ctx w) !! fn_name fd = Some (f, true) →
  def_func funcdef false w =
    Raise (ValueError (odr_message (fn_name fd) (ctx_name (ctx w)))) w.
Proof.
  intros Hfd Hdef. unfold def_func, bind, deref.
  rewrite Hfd. by rewrite Hdef.
Qed.

(** What [def_func] does over a declaration-only record: the two
    fields of the shared object are overwritten, the table is not
    touched. *)
Lemma def_func_declared w funcdef fd f inline :
  fheap w !! funcdef = Some fd →
  funcs (ctx w) !! fn_name fd = Some (f, false) →
  def_func funcdef inline w =
    Ret tt (mkWorld (types w)
              (alter (set_args (fn_args fd))  f
                 (alter (set_return_type (fn_return_type fd)) f (fheap w)))
              (ctx w) (symtab w)).
Proof.
  intros Hfd Hdecl. unfold def_func, bind, deref.
  rewrite Hfd, Hdecl. cbn. rewrite Hfd. cbn.
  destruct (decide (f = funcdef)) as [->|Hne].
  - rewrite list_lookup_alter_eq, Hfd. done.
  - rewrite list_lookup_alter_ne, Hfd by done. done.
Qed.


End ContextFacts.



(** C2. [def_func] over a declaration-only record, at the scenario of the
    specification (declared [void f(int)], then defined [void f(int x)]):
    the shared object is overwritten in place and carries the parameter
    name [x], but the table entry keeps its flag [False], the record is
    not marked defined; a second non-inline definition is then accepted
    without an ODR violation. *)
Theorem def_func_promotion_keeps_flag :
  ∃ w', def_func 1 false ContextExamples.declared = Ret tt w'
        ∧ fheap w' !! 0%nat = Some ContextExamples.f_def
        ∧ func (Some "f") w' = Ret (Some 0%nat) w'
        ∧ funcs (ctx w') !! Some "f" = Some (0%nat, false)
        ∧ ∃ w'', def_func 2 false w' = Ret tt w''
                 ∧ fheap w'' !! 0%nat = Some ContextExamples.f_def'
                 ∧ funcs (ctx w'') !! Some "f" = Some (0%nat, false).
Proof.
  eexists. split.
  - apply (def_func_declared ContextExamples.declared 1 ContextExamples.f_def 0);
      reflexivity.
  - split; [reflexivity|]. split; [reflexivity|]. split; [reflexivity|].
    eexists. split.
    + apply (def_func_declared _ 2 ContextExamples.f_def' 0); reflexivity.
    + split; reflexivity.
Qed.

(** C10, as stated, fails on [decl_func]: over a context that holds a
    defined record of [f], declaring another object named [f] replaces
    the entry. *)
Lemma decl_func_overwrites :
  ¬ (∀ (w w' : World) (f : nat) (fd : CFunction) (e : nat * bool),
        fheap w !! f = Some fd →
        funcs (ctx w) !! fn_name fd = Some e →
        decl_func f w = Ret tt w' →
        funcs (ctx w') !! fn_name fd = Some e).
Proof.
  intros H.
  specialize (H ContextExamples.defined _ 2%nat ContextExamples.f_def'
                (1%nat, true) eq_refl eq_refl eq_refl).
  vm_compute in H. discriminate.
Qed.

(** C10, amended. [decl_func] stores [(func, False)] under the name
    whatever the table held; it is its caller that never overwrites:
    [die_to_ctype_or_func], for a function that is not in the symbol table
    of the object and has a record in the context, returns the object of
    that record and leaves context and objects as they were. *)
Theorem decl_func_only_when_unknown (cu : Z → DIE) (fuel : nat) (die : DIE)
  (w : World) (s : string) (f : nat) (d : bool)
  (symtab' : SymbolTableSection) :
  tag die = "DW_TAG_subprogram" →
  attributes die !! "DW_AT_name" = Some (ABytes s) →
  is_static (symtab w) (Some s) = inr (false, false, symtab') →
  funcs (ctx w) !! Some s = Some (f, d) →
  die_to_ctype_or_func cu fuel die w
    = Ret (inr f) (mkWorld (types w) (fheap w) (ctx w) symtab')
  ∧ ∀ g fd, fheap w !! g = Some fd →
      decl_func g w
      = Ret tt (mkWorld (types w) (fheap w)
                  (mkContext (ctx_name (ctx w))
                             (<[fn_name fd := (g, false)]> (funcs (ctx w))))
                  (symtab w)).
Proof.
  intros Htag Hname Hsym Hrec. split.
  - unfold die_to_ctype_or_func, tag_is. rewrite Htag. cbn.
    unfold bind at 1. unfold die_get_name, has_attr.
    rewrite bool_decide_eq_true_2 by (rewrite Hname; eauto).
    unfold bind at 1, attr. rewrite Hname. cbn.
    unfold bind at 1, is_static_w. rewrite Hsym. cbn.
    unfold bind, func. cbn. by rewrite Hrec.
  - intros g fd Hg. unfold decl_func, bind, deref. by rewrite Hg.
Qed.

Lemma decl_func_only_when_unknown_witness :
  die_to_ctype_or_func (fun _ => ContextExamples.f_die) 0
    ContextExamples.f_die ContextExamples.defined
  = Ret (inr 1%nat)
        (mkWorld initial_state ContextExamples.objects
                 (ctx ContextExamples.defined)
                 (set_static_cache empty_symtab ∅)).
Proof.
  apply (decl_func_only_when_unknown (fun _ => ContextExamples.f_die) 0
           ContextExamples.f_die ContextExamples.defined "f" 1 true
           (set_static_cache empty_symtab ∅)).
  - reflexivity.
  - reflexivity.
  - vm_compute. reflexivity.
  - reflexivity.
Defined.

(** ** Object-level similarity *)

Section SimilarityFacts.








End SimilarityFacts.

Section DiffObjectsFacts.

Context {AsmFunction : Type}.
Variable mkFunction : list string → AsmFunction.
Variable fname : AsmFunction → string.
Variable equivalent : AsmFunction → AsmFunction → bool.
Variable make_diff_table : AsmFunction → AsmFunction → string * Q.
Variable listing : AsmFunction → string.
Variable details : string → string → string → Q → string → string.



End DiffObjectsFacts.



(** ** Symbol linkage table *)

Section SymtabFacts.

Variable strtab : Z → string.
Variable entsize : nat.
Hypothesis entsize_ge : (ELF_SYM_STRUCT_size ≤ entsize)%nat.

Lemma length_concat_records (recs : list (list byte)) :
  Forall (fun r => List.length r = entsize) recs →
  List.length (concat recs) = (List.length recs * entsize)%nat.
Proof.
  induction 1 as [|r recs Hr _ IH]; [done|].
  cbn. rewrite length_app, Hr, IH. done.
Qed.

Lemma scan_symbols_shift (buf : list byte) (d : nat) (ps : list nat)
  (static : gmap string bool) :
  scan_symbols strtab buf (map (fun p => p + d)%nat ps) static
  = scan_symbols strtab (drop d buf) ps static.
Proof.
  revert static. induction ps as [|p ps IH]; intros static; [done|].
  cbn [map scan_symbols]. rewrite drop_drop, (Nat.add_comm d p).
  destruct (ELF_SYM_STRUCT_unpack _) as [e|[st_name st_info]]; [done|].
  apply IH.
Qed.

Lemma unpack_record (r : list byte) :
  List.length r = entsize →
  ∃ st_name st_info,
    ELF_SYM_STRUCT_unpack (take ELF_SYM_STRUCT_size r)
    = inr (st_name, st_info).
Proof.
  intros Hr. unfold ELF_SYM_STRUCT_size in *.
  do 13 (destruct r as [|? r]; [cbn in Hr; lia|]).
  cbn. eauto.
Qed.

Lemma scan_symbols_records (recs : list (list byte))
  (static : gmap string bool) :
  Forall (fun r => List.length r = entsize) recs →
  scan_symbols strtab (concat recs)
    (map (fun k => k * entsize)%nat (seq 0 (List.length recs))) static
  = inr (fold_left (add_record strtab) recs static).
Proof.
  intros Hall. revert static.
  induction Hall as [|r recs Hr _ IH]; intros static; [done|].
  cbn [List.length seq map scan_symbols concat fold_left].
  rewrite drop_0, take_app_le by lia.
  unfold add_record at 2, record_entry.
  destruct (unpack_record r Hr) as (st_name & st_info & ->).
  assert (Hpos : map (fun k => k * entsize)%nat (seq 1 (List.length recs))
                 = map (fun p => p + entsize)%nat
                     (map (fun k => k * entsize)%nat
                          (seq 0 (List.length recs)))).
  { rewrite <- seq_shift, !map_map. apply map_ext. intros; lia. }
  rewrite Hpos.
  rewrite scan_symbols_shift, drop_app_length' by done.
  rewrite IH. by destruct (is_func_or_object st_info).
Qed.

Lemma range_step_records (n : nat) :
  range_step (n * entsize) entsize
  = map (fun k => k * entsize)%nat (seq 0 n).
Proof.
  unfold range_step. unfold ELF_SYM_STRUCT_size in *. f_equal. f_equal.
  replace (n * entsize + entsize - 1)%nat
    with (n * entsize + (entsize - 1))%nat by lia.
  rewrite Nat.div_add_l by lia.
  rewrite Nat.div_small by lia. lia.
Qed.

Lemma build_static_cache_records before recs after :
  Forall (fun r => List.length r = entsize) recs →
  build_static_cache (symtab_of strtab entsize before recs after)
  = inr (fold_left (add_record strtab) recs ∅).
Proof.
  intros Hall. unfold build_static_cache, symtab_of. cbn.
  unfold ELF_SYM_STRUCT_size in *.
  destruct (Nat.eqb_spec entsize 0) as [->|_]; [lia|].
  rewrite drop_app_length.
  rewrite take_app_length'
    by (rewrite length_concat_records by done; lia).
  rewrite length_concat_records, range_step_records by done.
  by apply scan_symbols_records.
Qed.

End SymtabFacts.

Lemma dom_add_records (strtab : Z → string) (recs : list (list byte))
(static : gmap string bool) :
  dom (fold_left (add_record strtab) recs static)
  = dom static ∪ list_to_set (classifiable_names strtab recs).
Proof.
  revert static. induction recs as [|r recs IH]; intros static; cbn.
  - set_solver.
  - rewrite IH. unfold add_record, classifiable_names. cbn.
    destruct (record_entry strtab r) as [[n l]|]; cbn.
    + rewrite dom_insert_L. set_solver.
    + done.
Qed.

(** C9. For a symbol table made of fixed-size records, the table built by
    the first call of [is_static] has as keys exactly the names of the
    records of type function or object: the call succeeds and reports
    present for those names and no others.  So the answer is the same
    for every order of the records, records of other types contribute
    nothing, and when the N function/object records have distinct names
    the table has N keys. *)
Theorem is_static_classifies (strtab : Z → string) (entsize : nat)
  (before after : list byte) (recs : list (list byte)) :
  (ELF_SYM_STRUCT_size ≤ entsize)%nat →
  Forall (fun r => List.length r = entsize) recs →
  ∃ c,
    build_static_cache (symtab_of strtab entsize before recs after) = inr c
    ∧ dom c = list_to_set (classifiable_names strtab recs)
    ∧ (∀ name, ∃ local,
         is_static (symtab_of strtab entsize before recs after) name
         = inr (names_include (classifiable_names strtab recs) name,
                local,
                set_static_cache
                  (symtab_of strtab entsize before recs after) c))
    ∧ (∀ recs' name,
         recs' ≡ₚ recs →
         ∃ local local' t t',
           is_static (symtab_of strtab entsize before recs after) name
           = inr (names_include (classifiable_names strtab recs) name,
                  local, t)
           ∧ is_static (symtab_of strtab entsize before recs' after) name
             = inr (names_include (classifiable_names strtab recs) name,
                    local', t'))
    ∧ (NoDup (classifiable_names strtab recs) →
       size c = List.length (classifiable_names strtab recs)).
Proof.
  intros Hsize Hall.
  assert (Hpresent : ∀ rs name,
    Forall (fun r => List.length r = entsize) rs →
    ∃ local,
      is_static (symtab_of strtab entsize before rs after) name
      = inr (names_include (classifiable_names strtab rs) name,
             local,
             set_static_cache (symtab_of strtab entsize before rs after)
               (fold_left (add_record strtab) rs ∅))).
  { intros rs name Hrs. unfold is_static.
    rewrite (build_static_cache_records strtab entsize Hsize) by done.
    change (_static_cache (symtab_of strtab entsize before rs after))
      with (@None (gmap string bool)). cbn beta iota.
    pose proof (dom_add_records strtab rs ∅) as Hdom.
    destruct name as [n|]; cbn.
    - destruct (fold_left (add_record strtab) rs ∅ !! n) as [l|] eqn:Hn.
      + exists l. rewrite bool_decide_eq_true_2; [done|].
        assert (n ∈ dom (fold_left (add_record strtab) rs ∅))
          by (apply elem_of_dom; eauto).
        set_solver.
      + exists false. rewrite bool_decide_eq_false_2; [done|].
        intros Hin. apply not_elem_of_dom in Hn. set_solver.
    - by exists false. }
  exists (fold_left (add_record strtab) recs ∅).
  split; [by apply build_static_cache_records|].
  split; [rewrite dom_add_records; set_solver|].
  split; [intros name; by apply Hpresent|].
  split.
  - intros recs' name Hperm.
    assert (Hall' : Forall (fun r => List.length r = entsize) recs')
      by (by rewrite Hperm).
    destruct (Hpresent recs name Hall) as [local Hl].
    destruct (Hpresent recs' name Hall') as [local' Hl'].
    exists local, local'. do 2 eexists. split; [exact Hl|].
    rewrite Hl'.
    assert (names_include (classifiable_names strtab recs') name
            = names_include (classifiable_names strtab recs) name) as ->;
      [|done].
    destruct name as [n|]; [|done]. cbn.
    apply bool_decide_ext. unfold classifiable_names.
    by rewrite Hperm.
  - intros Hnodup.
    rewrite <- size_dom, dom_add_records, dom_empty_L, (left_id_L ∅ (∪)).
    by rewrite size_list_to_set.
Qed.

Lemma is_static_classifies_witness :
  is_static SymtabExample.table (Some "helper")
  = inr (true, true,
         set_static_cache SymtabExample.table
           (<["helper" := true]> (<["counter" := false]>
              (<["main" := false]> ∅))))
  ∧ (∃ local t, is_static SymtabExample.table (Some "") = inr (false, local, t)).
Proof.
  destruct (is_static_classifies SymtabExample.strtab 16
              [x7f; x45; x4c; x46] [xff] SymtabExample.recs)
    as (c & Hc & _ & Hnames & _).
  - vm_compute. lia.
  - repeat constructor.
  - split.
    + vm_compute. reflexivity.
    + destruct (Hnames (Some "")) as [local Hl].
      exists local. eexists. exact Hl.
Defined.

(** ** Type reconstruction *)

Section SignatureChildren.

Variable cu : Z → DIE.
Variable rec : DIE → M State ref.

(** What one child of a function entry contributes, kind by kind. *)
Lemma funclike_child_variadic die args arg_die st :
  tag arg_die = "DW_TAG_unspecified_parameters" →
  funclike_child cu rec die args arg_die st
  = Ret (args ++ [(CEllipsis, None)])%list st.
Proof. intros Htag. unfold funclike_child, tag_is. by rewrite Htag. Qed.

Lemma funclike_child_skipped die args arg_die st :
  In (tag arg_die)
     ["DW_TAG_variable"; "DW_TAG_inlined_subroutine"; "DW_TAG_lexical_block";
      "DW_TAG_subprogram"; "DW_TAG_label"]
  ∨ startswith "DW_TAG_GNU" (tag arg_die) = true
  ∨ endswith "_type" (tag arg_die) = true →
  funclike_child cu rec die args arg_die st = Ret args st.
Proof.
  intros Hskip. unfold funclike_child, tag_is.
  destruct (String.eqb_spec (tag arg_die) "DW_TAG_formal_parameter") as [E|_].
  { rewrite E in Hskip. cbn in Hskip.
    destruct Hskip as [H|[H|H]]; [|discriminate H|discriminate H].
    repeat (destruct H as [H|H]; [discriminate H|]). destruct H. }
  destruct (String.eqb_spec (tag arg_die) "DW_TAG_unspecified_parameters")
    as [E|_].
  { rewrite E in Hskip. cbn in Hskip.
    destruct Hskip as [H|[H|H]]; [|discriminate H|discriminate H].
    repeat (destruct H as [H|H]; [discriminate H|]). destruct H. }
  destruct Hskip as [H|[H|H]].
  - cbn in H.
    repeat (destruct H as [H|H];
            [rewrite <- H; cbn; by rewrite ?orb_true_r|]).
    destruct H.
  - rewrite H. by rewrite ?orb_true_r.
  - rewrite H. by rewrite ?orb_true_r.
Qed.

Lemma funclike_child_unrecognized die args arg_die st :
  ¬ In (tag arg_die)
       ["DW_TAG_formal_parameter"; "DW_TAG_unspecified_parameters";
        "DW_TAG_variable"; "DW_TAG_inlined_subroutine";
        "DW_TAG_lexical_block"; "DW_TAG_subprogram"; "DW_TAG_label"] →
  startswith "DW_TAG_GNU" (tag arg_die) = false →
  endswith "_type" (tag arg_die) = false →
  funclike_child cu rec die args arg_die st
  = Raise (TypeError ("What is a " ++ tag arg_die ++ " function DIE child?"))
          st.
Proof.
  intros Hnot Hgnu Htype. unfold funclike_child, tag_is.
  rewrite Hgnu, Htype.
  repeat match goal with
         | |- context [String.eqb (tag arg_die) ?t] =>
             destruct (String.eqb_spec (tag arg_die) t) as [E|_];
             [destruct Hnot; rewrite E; cbn; tauto|]
         end.
  done.
Qed.

(** A formal parameter: its type is resolved; its name is read from the
    parameter entry, but only if the function entry [die] has a name. *)
Lemma funclike_child_parameter die args arg_die a t st st' :
  tag arg_die = "DW_TAG_formal_parameter" →
  attributes arg_die !! "DW_AT_type" = Some (AInt a) →
  rec (cu a) st = Ret t st' →
  (has_attr "DW_AT_name" die = false →
   funclike_child cu rec die args arg_die st
   = Ret (args ++ [(t, None)])%list st')
  ∧ (has_attr "DW_AT_name" die = true →
     (∀ s, attributes arg_die !! "DW_AT_name" = Some (ABytes s) →
           funclike_child cu rec die args arg_die st
           = Ret (args ++ [(t, Some s)])%list st')
     ∧ (attributes arg_die !! "DW_AT_name" = None →
        funclike_child cu rec die args arg_die st = Raise KeyError st)).
Proof.
  intros Htag Ha Hrec. unfold funclike_child, tag_is. rewrite Htag.
  cbn [String.eqb Ascii.eqb Bool.eqb].
  split; [|split].
  - intros ->. unfold bind, attr. rewrite Ha. cbn. by rewrite Hrec.
  - intros s Hs. rewrite H. unfold bind, attr. rewrite Hs, Ha. cbn.
    by rewrite Hrec.
  - intros Hnone. rewrite H. unfold bind, attr. by rewrite Hnone.
Qed.

End SignatureChildren.

(** C8. The children of a function signature, at two entries.  For the
    unnamed signature [void(int x)] the parameter entry has the name
    [x], yet the pair carries [None]: the name is looked for among the
    attributes of the function entry, not of the parameter entry.  For
    the named function [void f(int)], whose parameter entry has no name,
    the same test succeeds on the function entry and reading the name of
    the parameter raises [KeyError]. *)
Theorem funclike_args_name_test_on_function_entry :
  attributes TypeExamples.d_param_x !! "DW_AT_name" = Some (ABytes "x")
  ∧ (∃ st, die_to_funclike_args TypeExamples.cu
             (die_to_ctype TypeExamples.cu 1) TypeExamples.d_callback
             initial_state
           = Ret (CVoid, [(RObj 0, None)]) st
           ∧ heap st !! 0%nat = Some (CPrimitive TypeExamples.d_int "int"))
  ∧ attributes TypeExamples.d_param_unnamed !! "DW_AT_name" = None
  ∧ (∃ st, die_to_funclike_args TypeExamples.cu
             (die_to_ctype TypeExamples.cu 1) TypeExamples.d_f initial_state
           = Raise KeyError st).
Proof.
  split; [reflexivity|]. split.
  - eexists. split; vm_compute; reflexivity.
  - split; [reflexivity|]. eexists. vm_compute. reflexivity.
Qed.

Section ReconstructorBasics.

Variable cu : Z → DIE.

Lemma bind_Ret {S A B} (m : M S A) (k : A → M S B) st a st' :
  m st = Ret a st' → bind m k st = k a st'.
Proof. unfold bind. by intros ->. Qed.

Lemma bind_Raise {S A B} (m : M S A) (k : A → M S B) st e st' :
  m st = Raise e st' → bind m k st = Raise e st'.
Proof. unfold bind. by intros ->. Qed.

Lemma cache_of_create_cache st : cache_of (create_cache st) = cache_of st.
Proof. done. Qed.


Lemma die_to_ctype_body_miss rec die st :
  cache_of st !! offset die = None →
  die_to_ctype_body cu rec die st
  = die_to_ctype_kind cu rec die (create_cache st).
Proof. unfold die_to_ctype_body. cbn. by intros ->. Qed.

Lemma die_to_ctype_create_cache fuel die st :
  die_to_ctype cu fuel die (create_cache st) = die_to_ctype cu fuel die st.
Proof. by destruct fuel. Qed.

Lemma cache_ctype_run o st :
  cache_ctype o st
  = Ret (RObj (List.length (heap st)))
        (mkState (Some (<[offset (ctype_die o) := RObj (List.length (heap st))]>
                          (cache_of st)))
                 (heap st ++ [o])%list).
Proof. done. Qed.

Lemma has_attr_Some k die v :
  attributes die !! k = Some v → has_attr k die = true.
Proof. intros H. unfold has_attr. apply bool_decide_eq_true_2. eauto. Qed.


Lemma attr_Some {S} k die v (st : S) :
  attributes die !! k = Some v → attr k die st = Ret v st.
Proof. unfold attr. by intros ->. Qed.

Lemma die_get_at_type_Ret rec die a st r st' :
  attributes die !! "DW_AT_type" = Some (AInt a) →
  rec (cu a) st = Ret r st' →
  die_get_at_type cu rec die st = Ret r st'.
Proof.
  intros Ha Hrec. unfold die_get_at_type, except_KeyError, bind, attr.
  rewrite Ha. cbn. by rewrite Hrec.
Qed.

(** Dispatch on the tag. *)
Lemma kind_pointer rec die :
  tag die = "DW_TAG_pointer_type" →
  die_to_ctype_kind cu rec die = pointer_type cu rec die.
Proof. unfold die_to_ctype_kind, tag_is. by intros ->. Qed.




Lemma kind_cv rec die :
  tag die = "DW_TAG_const_type" ∨ tag die = "DW_TAG_volatile_type" →
  die_to_ctype_kind cu rec die = cv_type cu rec die.
Proof. unfold die_to_ctype_kind, tag_is. by intros [-> | ->]. Qed.

End ReconstructorBasics.



(** C7, as stated, fails: reconstructing [const int[3]], a const entry
    whose inner type is the array of three [int], yields that array with
    its element still the primitive [int], not a Const model of it. *)
Lemma const_array_elements_not_requalified :
  ∃ st', die_to_ctype TypeExamples.cu 3 TypeExamples.d_const_int3
           initial_state = Ret (RObj 1) st'
         ∧ heap_get st' (RObj 1)
           = Some (CArray TypeExamples.d_int3 (RObj 0) (Some 3))
         ∧ heap_get st' (RObj 0)
           = Some (CPrimitive TypeExamples.d_int "int")
         ∧ ¬ (∃ d q t, heap_get st' (RObj 1) = Some (CArray d q (Some 3))
                       ∧ (heap_get st' q = Some (CConst d t)
                          ∨ heap_get st' q = Some (CVolatile d t))).
Proof.
  eexists. split; [vm_compute; reflexivity|].
  split; [reflexivity|]. split; [reflexivity|].
  intros (d & q & t & Harr & Hq). cbn in Harr. injection Harr as <- <-.
  cbn in Hq. destruct Hq as [Hq|Hq]; discriminate Hq.
Qed.

(** C7, amended. A const or volatile entry whose inner type reconstructs
    to an Array model reconstructs to that same Array instance, unchanged:
    nothing is allocated or cached for the qualified entry, and the
    element type of the array is the one it had.  And a Const or Volatile
    model built for an entry never has an Array model as its inner
    type. *)
Theorem qualified_array_is_the_array (cu : Z → DIE) (fuel : nat) (die : DIE)
  (st : State) :
  tag die = "DW_TAG_const_type" ∨ tag die = "DW_TAG_volatile_type" →
  cache_of st !! offset die = None →
  (∀ a r st',
      attributes die !! "DW_AT_type" = Some (AInt a) →
      die_to_ctype cu fuel (cu a) st = Ret r st' →
      is_CArray st' r = true →
      die_to_ctype cu (S fuel) die st = Ret r st')
  ∧ (∀ r st' d o,
        die_to_ctype cu (S fuel) die st = Ret r st' →
        heap_get st' r = Some (CConst d o)
        ∨ heap_get st' r = Some (CVolatile d o) →
        is_CArray st' o = false).
Proof.
  intros Htag Hmiss. split.
  - intros a r st' Ha Hrun Harr.
    cbn [die_to_ctype]. rewrite die_to_ctype_body_miss, kind_cv by done.
    unfold cv_type.
    erewrite bind_Ret;
      [| eapply die_get_at_type_Ret;
         [exact Ha | rewrite die_to_ctype_create_cache; exact Hrun]].
    unfold bind. by rewrite Harr.
  - intros r st' d o Hrun Hr.
    cbn [die_to_ctype] in Hrun.
    rewrite die_to_ctype_body_miss, kind_cv in Hrun by done.
    unfold cv_type, bind in Hrun.
    destruct (die_get_at_type cu (die_to_ctype cu fuel) die (create_cache st))
      as [of_ st1|e st1| |]; try done.
    destruct (is_CArray st1 of_) eqn:Harr.
    + injection Hrun as <- <-. unfold is_CArray in Harr.
      by destruct Hr as [Hr|Hr]; rewrite Hr in Harr.
    + assert (∃ obj, (obj = CConst die of_ ∨ obj = CVolatile die of_)
                ∧ r = RObj (List.length (heap st1))
                ∧ heap st' = (heap st1 ++ [obj])%list) as (obj & Hobj & -> & Hheap).
      { destruct (tag_is "DW_TAG_const_type" die);
          rewrite cache_ctype_run in Hrun; injection Hrun as <- <-;
          eexists; (split; [|split; reflexivity]); eauto. }
      cbn in Hr. rewrite Hheap, lookup_app_r, Nat.sub_diag in Hr by done.
      cbn in Hr.
      assert (o = of_) as -> by (destruct Hobj as [-> | ->], Hr as [Hr|Hr]; congruence).
      unfold is_CArray, heap_get in *. destruct of_ as [| |l]; try done.
      rewrite Hheap.
      destruct (decide (l < List.length (heap st1))%nat).
      * by rewrite lookup_app_l.
      * rewrite lookup_app_r by lia.
        destruct (l - List.length (heap st1))%nat as [|k]; cbn.
        -- by destruct Hobj as [-> | ->].
        -- done.
Qed.

Lemma qualified_array_is_the_array_witness :
  ∃ st', die_to_ctype TypeExamples.cu 3 TypeExamples.d_const_int3
           initial_state = Ret (RObj 1) st'
         ∧ cache_of st' !! 70 = None.
Proof.
  eexists. split.
  - apply (proj1 (qualified_array_is_the_array TypeExamples.cu 2
                    TypeExamples.d_const_int3 initial_state
                    (or_introl eq_refl) eq_refl) 60).
    + reflexivity.
    + vm_compute. reflexivity.
    + reflexivity.
  - vm_compute. reflexivity.
Defined.

Section CacheStability.

Variable cu : Z → DIE.
Variable P : State → Prop.

Lemma stable_ret {A} (a : A) : stable P (ret a).
Proof. constructor. by intros st H. Qed.

Lemma stable_raise {A} (e : exn) : stable P (@raise State A e).
Proof. constructor. by intros st H. Qed.

Lemma stable_bind {A B} (m : M State A) (k : A → M State B) :
  stable P m → (∀ a, stable P (k a)) → stable P (bind m k).
Proof.
  intros [Hm] Hk. constructor. intros st H. unfold bind. specialize (Hm st H).
  destruct (m st) as [a st'|e st'| |]; try done.
  destruct (Hk a) as [Hka]. by apply Hka.
Qed.

Lemma stable_except {A} (m h : M State A) :
  stable P m → stable P h → stable P (except_KeyError m h).
Proof.
  intros [Hm] [Hh]. constructor. intros st H. unfold except_KeyError.
  specialize (Hm st H).
  destruct (m st) as [a st'|[] st'| |]; try done. by apply Hh.
Qed.

Lemma stable_for_fold {A B} (body : B → A → M State B) (l : list A) (acc : B) :
  (∀ acc x, stable P (body acc x)) → stable P (for_fold body l acc).
Proof.
  intros Hbody. revert acc. induction l as [|x l IH]; intros acc; cbn.
  - apply stable_ret.
  - apply stable_bind; [apply Hbody | apply IH].
Qed.

Lemma stable_for_each {A} (body : A → M State unit) (l : list A) :
  (∀ x, stable P (body x)) → stable P (for_each body l).
Proof. intros Hbody. unfold for_each. by apply stable_for_fold. Qed.

Lemma stable_attr k die : stable P (attr k die).
Proof.
  constructor. intros st H. unfold attr.
  by destruct (attributes die !! k).
Qed.

Lemma stable_decode v : stable P (decode v).
Proof. constructor. intros st H. by destruct v. Qed.

Lemma stable_as_int v : stable P (as_int v).
Proof. constructor. intros st H. by destruct v. Qed.

Lemma stable_die_get_name die : stable P (die_get_name die).
Proof.
  unfold die_get_name. destruct (has_attr "DW_AT_name" die).
  - apply stable_bind; [apply stable_attr|]. intros v.
    apply stable_bind; [apply stable_decode|]. intros s. apply stable_ret.
  - apply stable_ret.
Qed.

Lemma stable_read {A} (f : State → A) : stable P (fun st => Ret (f st) st).
Proof. constructor. by intros st H. Qed.

End CacheStability.

Ltac stable_step :=
  first
    [ simple apply stable_ret | simple apply stable_raise | simple apply stable_attr
    | simple apply stable_decode | simple apply stable_as_int | simple apply stable_die_get_name
    | simple apply stable_read
    | simple apply stable_for_fold; intros ? ?
    | simple apply stable_for_each; intros ?
    | simple apply stable_except
    | simple apply stable_bind; [|intros ?]
    | match goal with
      | |- stable _ (if ?b then _ else _) => destruct b
      end ].

Section CacheEntry.

Variable cu : Z → DIE.
Variable o : Z.
Variable r : ref.

Lemma cached_mutate f x : stable (cached o r) (mutate f x).
Proof. constructor. intros st H. unfold mutate. by destruct x. Qed.

Lemma cached_cache_ctype obj :
  offset (ctype_die obj) ≠ o → stable (cached o r) (cache_ctype obj).
Proof.
  intros Hne. constructor. intros st H.
  rewrite cache_ctype_run. unfold cached in *. cbn.
  by rewrite lookup_insert_ne.
Qed.

Ltac cached_step :=
  first
    [ stable_step | simple apply cached_mutate
    | simple apply cached_cache_ctype; cbn; assumption ].

Section Activation.

Variable rec : DIE → M State ref.
Hypothesis rec_stable : ∀ d, stable (cached o r) (rec d).

Lemma cached_die_get_at_type die :
  stable (cached o r) (die_get_at_type cu rec die).
Proof. unfold die_get_at_type. repeat cached_step. apply rec_stable. Qed.

Lemma cached_die_to_funclike_args die :
  stable (cached o r) (die_to_funclike_args cu rec die).
Proof.
  unfold die_to_funclike_args, funclike_child.
  repeat first [ cached_step | simple apply cached_die_get_at_type
               | simple apply rec_stable ].
Qed.

Lemma cached_die_to_ctype_kind die :
  offset die ≠ o → stable (cached o r) (die_to_ctype_kind cu rec die).
Proof.
  intros Hne.
  unfold die_to_ctype_kind, pointer_type, array_type, structure_type,
    union_type, enumeration_type, cv_type, subroutine_type, base_type,
    typedef, array_length_step, struct_member, union_member, enum_member.
  repeat first [ cached_step | simple apply cached_die_get_at_type
               | simple apply cached_die_to_funclike_args ].
Qed.

Lemma cached_die_to_ctype_body die :
  stable (cached o r) (die_to_ctype_body cu rec die).
Proof.
  constructor. intros st H. unfold die_to_ctype_body. cbn zeta.
  rewrite cache_of_create_cache.
  destruct (cache_of st !! offset die) as [x|] eqn:Hx; [done|].
  destruct (cached_die_to_ctype_kind die) as [Hkind]; [|by apply Hkind].
  intros Heq. unfold cached in H. rewrite Heq in Hx. congruence.
Qed.

End Activation.

(** An entry of the cache survives every later reconstruction. *)
Lemma cached_die_to_ctype fuel die :
  stable (cached o r) (die_to_ctype cu fuel die).
Proof.
  revert die. induction fuel as [|n IH]; intros die; [by constructor|].
  cbn [die_to_ctype]. by apply cached_die_to_ctype_body.
Qed.

End CacheEntry.

Section ReturnsCached.

Variable cu : Z → DIE.
Variable o : Z.


Lemma returns_cached_raise e : returns_cached o (raise e).
Proof. by intros st r st' Hrun. Qed.





End ReturnsCached.




(** ** Self-referential structures *)

Section DictFacts.

Context {K V : Type} `{EqDecision K}.



End DictFacts.

Section HeapFacts.







End HeapFacts.

Section SelfReference.

Variable cu : Z → DIE.
Variable struct_die : DIE.
Variable n : nat.

Hypothesis struct_tag : tag struct_die = "DW_TAG_structure_type".
Hypothesis struct_at : cu (offset struct_die) = struct_die.

Abbreviation o := (offset struct_die).





Lemma filling_create_cache l st :
  filling cu o l st → filling cu o l (create_cache st).
Proof. done. Qed.










End SelfReference.



(** ** Invariants kept by every reconstruction *)

Section KindInvariant.

Variable cu : Z → DIE.
Variable P : State → Prop.
Variable allowed : DIE → Prop.

Hypothesis P_create_cache : ∀ st, P st → P (create_cache st).
Hypothesis P_cache_ctype :
  ∀ obj, allowed (ctype_die obj) → stable P (cache_ctype obj).
Hypothesis P_put_member : ∀ k v r, stable P (mutate (put_member k v) r).
Hypothesis P_put_member_offset :
  ∀ k v r, stable P (mutate (put_member_offset k v) r).
Hypothesis P_put_enumerator :
  ∀ k v r, stable P (mutate (put_enumerator k v) r).
Hypothesis allowed_miss :
  ∀ die st, P st → cache_of st !! offset die = None → allowed die.

Ltac kind_step :=
  first
    [ stable_step
    | simple apply P_put_member | simple apply P_put_member_offset
    | simple apply P_put_enumerator
    | simple apply P_cache_ctype; cbn; assumption ].

Section OneActivation.

Variable rec : DIE → M State ref.
Hypothesis rec_stable : ∀ d, stable P (rec d).

Lemma invariant_die_get_at_type die : stable P (die_get_at_type cu rec die).
Proof.
  unfold die_get_at_type.
  repeat first [kind_step | simple apply rec_stable].
Qed.

Lemma invariant_die_to_funclike_args die :
  stable P (die_to_funclike_args cu rec die).
Proof.
  unfold die_to_funclike_args, funclike_child.
  repeat first [ kind_step | simple apply invariant_die_get_at_type
               | simple apply rec_stable ].
Qed.

Lemma invariant_die_to_ctype_kind die :
  allowed die → stable P (die_to_ctype_kind cu rec die).
Proof.
  intros Hallowed.
  unfold die_to_ctype_kind, pointer_type, array_type, structure_type,
    union_type, enumeration_type, cv_type, subroutine_type, base_type,
    typedef, array_length_step, struct_member, union_member, enum_member.
  repeat first [ kind_step | simple apply invariant_die_get_at_type
               | simple apply invariant_die_to_funclike_args ].
Qed.

Lemma invariant_die_to_ctype_body die :
  stable P (die_to_ctype_body cu rec die).
Proof.
  constructor. intros st H. unfold die_to_ctype_body. cbn zeta.
  rewrite cache_of_create_cache.
  destruct (cache_of st !! offset die) as [x|] eqn:Hx.
  - by apply P_create_cache.
  - destruct (invariant_die_to_ctype_kind die) as [Hkind].
    + by eapply allowed_miss.
    + by apply Hkind, P_create_cache.
Qed.

End OneActivation.

Lemma invariant_die_to_ctype fuel die : stable P (die_to_ctype cu fuel die).
Proof.
  revert die. induction fuel as [|n IH]; intros die; [by constructor|].
  cbn [die_to_ctype]. by apply invariant_die_to_ctype_body.
Qed.

End KindInvariant.

Section HeapInvariants.

Lemma mutate_heap f r st :
  ∃ h, mutate f r st = Ret tt (mkState (ctype_cache st) h)
       ∧ List.length h = List.length (heap st)
       ∧ ∀ l, h !! l = heap st !! l ∨ h !! l = f <$> heap st !! l.
Proof.
  unfold mutate. destruct r as [| |l0].
  - exists (heap st). destruct st. split; [done|]. split; [done|]. by left.
  - exists (heap st). destruct st. split; [done|]. split; [done|]. by left.
  - exists (alter f l0 (heap st)). split; [done|].
    split; [by rewrite length_alter|]. intros l.
    destruct (decide (l0 = l)) as [->|Hne].
    + right. apply list_lookup_alter_eq.
    + left. by apply list_lookup_alter_ne.
Qed.

Lemma put_member_immutable k v obj : immutable obj → put_member k v obj = obj.
Proof. by destruct obj. Qed.

Lemma put_member_offset_immutable k v obj :
  immutable obj → put_member_offset k v obj = obj.
Proof. by destruct obj. Qed.

Lemma put_enumerator_immutable k v obj :
  immutable obj → put_enumerator k v obj = obj.
Proof. by destruct obj. Qed.

Lemma put_member_die k v obj : ctype_die (put_member k v obj) = ctype_die obj.
Proof. by destruct obj. Qed.

Lemma put_member_offset_die k v obj :
  ctype_die (put_member_offset k v obj) = ctype_die obj.
Proof. by destruct obj. Qed.

Lemma put_enumerator_die k v obj :
  ctype_die (put_enumerator k v obj) = ctype_die obj.
Proof. by destruct obj. Qed.

Lemma holds_mutate l obj f r :
  f obj = obj → stable (holds l obj) (mutate f r).
Proof.
  intros Hf. constructor. intros st H.
  destruct (mutate_heap f r st) as (h & -> & _ & Hh). unfold holds in *. cbn.
  destruct (Hh l) as [-> | ->]; [done|]. by rewrite H; cbn; rewrite Hf.
Qed.

Lemma holds_cache_ctype l obj new : stable (holds l obj) (cache_ctype new).
Proof.
  constructor. intros st H. rewrite cache_ctype_run. unfold holds in *. cbn.
  by apply lookup_app_l_Some.
Qed.

Lemma at_least_mutate n f r : stable (at_least n) (mutate f r).
Proof.
  constructor. intros st H.
  destruct (mutate_heap f r st) as (h & -> & Hlen & _). unfold at_least in *.
  cbn. by rewrite Hlen.
Qed.

Lemma at_least_cache_ctype n new : stable (at_least n) (cache_ctype new).
Proof.
  constructor. intros st H. rewrite cache_ctype_run. unfold at_least in *.
  cbn. rewrite length_app. lia.
Qed.

Lemma consistent_mutate f r :
  (∀ obj, ctype_die (f obj) = ctype_die obj) →
  stable cache_consistent (mutate f r).
Proof.
  intros Hf. constructor. intros st H.
  destruct (mutate_heap f r st) as (h & -> & _ & Hh).
  intros o x Hx. destruct (H o x Hx) as (l & obj & -> & Hl & Ho).
  destruct (Hh l) as [E|E].
  - exists l, obj. cbn. by rewrite E.
  - exists l, (f obj). cbn. rewrite E, Hl. split; [done|]. split; [done|].
    by rewrite Hf.
Qed.

Lemma consistent_cache_ctype new : stable cache_consistent (cache_ctype new).
Proof.
  constructor. intros st H. rewrite cache_ctype_run.
  intros o x. unfold cache_of at 1. cbn.
  destruct (decide (offset (ctype_die new) = o)) as [<-|Hne].
  - rewrite lookup_insert_eq. intros [= <-].
    exists (List.length (heap st)), new.
    split; [done|]. split; [|done]. by rewrite lookup_app_r, Nat.sub_diag.
  - rewrite lookup_insert_ne by done. intros Hx.
    destruct (H o x Hx) as (l & obj & -> & Hl & Ho).
    exists l, obj. split; [done|]. split; [|done]. by apply lookup_app_l_Some.
Qed.

End HeapInvariants.

(** X1. An entry of the cache is never replaced or removed: whatever is
    cached for an offset before a reconstruction, of any entry and with
    any outcome, is cached for it afterwards. *)
Theorem cache_entry_survives (cu : Z → DIE) (fuel : nat) (die : DIE)
  (st : State) (o : Z) (r : ref) :
  cache_of st !! o = Some r →
  match die_to_ctype cu fuel die st with
  | Ret _ st' | Raise _ st' => cache_of st' !! o = Some r
  | _ => True
  end.
Proof.
  intros Hcached.
  destruct (cached_die_to_ctype cu o r fuel die) as [Hkeep].
  exact (Hkeep st Hcached).
Qed.

Lemma cache_entry_survives_witness :
  match die_to_ctype TypeExamples.cu 3 TypeExamples.d_node
          MoreTypeExamples.after_int with
  | Ret _ st' | Raise _ st' => cache_of st' !! 10 = Some (RObj 0)
  | _ => True
  end.
Proof.
  apply (cache_entry_survives TypeExamples.cu 3 TypeExamples.d_node
           MoreTypeExamples.after_int 10 (RObj 0)).
  reflexivity.
Defined.

(** X2. A reconstruction never removes an object from the heap and never
    modifies a model that is not a Struct, Union or Enum: such a model is
    found unchanged at its location afterwards, whatever the outcome. *)
Theorem immutable_models_kept (cu : Z → DIE) (fuel : nat) (die : DIE)
  (st : State) (l : nat) (obj : ctype_obj) :
  immutable obj →
  heap st !! l = Some obj →
  match die_to_ctype cu fuel die st with
  | Ret _ st' | Raise _ st' =>
      heap st' !! l = Some obj
      ∧ (List.length (heap st) ≤ List.length (heap st'))%nat
  | _ => True
  end.
Proof.
  intros Himm Hl.
  assert (Hholds : stable (holds l obj) (die_to_ctype cu fuel die)).
  { apply (invariant_die_to_ctype cu (holds l obj) (fun _ => True)).
    - by intros s H.
    - intros new _. apply holds_cache_ctype.
    - intros k v r. apply holds_mutate. by apply put_member_immutable.
    - intros k v r. apply holds_mutate. by apply put_member_offset_immutable.
    - intros k v r. apply holds_mutate. by apply put_enumerator_immutable.
    - done. }
  assert (Hlen : stable (at_least (List.length (heap st)))
                        (die_to_ctype cu fuel die)).
  { apply (invariant_die_to_ctype cu _ (fun _ => True)).
    - by intros s H.
    - intros new _. apply at_least_cache_ctype.
    - intros k v r. apply at_least_mutate.
    - intros k v r. apply at_least_mutate.
    - intros k v r. apply at_least_mutate.
    - done. }
  destruct Hholds as [Hholds], Hlen as [Hlen].
  specialize (Hholds st Hl). specialize (Hlen st (Nat.le_refl _)).
  by destruct (die_to_ctype cu fuel die st).
Qed.

Lemma immutable_models_kept_witness :
  match die_to_ctype TypeExamples.cu 3 TypeExamples.d_node
          MoreTypeExamples.after_int with
  | Ret _ st' | Raise _ st' =>
      heap st' !! 0%nat = Some (CPrimitive TypeExamples.d_int "int")
      ∧ (1 ≤ List.length (heap st'))%nat
  | _ => True
  end.
Proof.
  apply (immutable_models_kept TypeExamples.cu 3 TypeExamples.d_node
           MoreTypeExamples.after_int 0
           (CPrimitive TypeExamples.d_int "int")).
  - exact I.
  - reflexivity.
Defined.

(** X3. The cache stays consistent with the heap: if every cached
    reference is an object of the heap built from an entry at the offset
    it is cached under, this still holds after a reconstruction, whatever
    its outcome.  It holds in the initial state, hence in every state the
    reconstructor reaches. *)
Theorem cache_consistent_kept (cu : Z → DIE) (fuel : nat) (die : DIE)
  (st : State) :
  cache_consistent st →
  match die_to_ctype cu fuel die st with
  | Ret _ st' | Raise _ st' => cache_consistent st'
  | _ => True
  end.
Proof.
  intros Hcons.
  assert (Hinv : stable cache_consistent (die_to_ctype cu fuel die)).
  { apply (invariant_die_to_ctype cu cache_consistent (fun _ => True)).
    - by intros s H.
    - intros new _. apply consistent_cache_ctype.
    - intros k v r. apply consistent_mutate. apply put_member_die.
    - intros k v r. apply consistent_mutate. apply put_member_offset_die.
    - intros k v r. apply consistent_mutate. apply put_enumerator_die.
    - done. }
  destruct Hinv as [Hinv]. exact (Hinv st Hcons).
Qed.

Lemma cache_consistent_kept_witness :
  match die_to_ctype TypeExamples.cu 5 TypeExamples.d_handler_ptr
          initial_state with
  | Ret _ st' | Raise _ st' => cache_consistent st'
  | _ => True
  end.
Proof.
  apply (cache_consistent_kept TypeExamples.cu 5 TypeExamples.d_handler_ptr
           initial_state).
  intros o r Hr. discriminate Hr.
Defined.

(** ** The kinds one by one *)

Section KindFacts.

Variable cu : Z → DIE.

Lemma kind_array rec die :
  tag die = "DW_TAG_array_type" →
  die_to_ctype_kind cu rec die = array_type cu rec die.
Proof. unfold die_to_ctype_kind, tag_is. by intros ->. Qed.


Lemma kind_unsupported rec die :
  ¬ In (tag die) type_tags →
  die_to_ctype_kind cu rec die
  = raise (TypeError ("What is a type " ++ tag die ++ "?")).
Proof.
  intros Hnot. unfold die_to_ctype_kind, tag_is.
  repeat match goal with
         | |- context [String.eqb (tag die) ?t] =>
             destruct (String.eqb_spec (tag die) t) as [E|_];
             [destruct Hnot; rewrite E; cbn; tauto|]
         end.
  done.
Qed.

End KindFacts.

(** X4. An entry whose tag is none of the ten tags [die_to_ctype] handles,
    and that is not in the cache, is fatal: the reconstruction raises
    [TypeError] naming the tag, having allocated and cached nothing. *)
Theorem unsupported_kind_is_fatal (cu : Z → DIE) (n : nat) (die : DIE)
  (st : State) :
  ¬ In (tag die) type_tags →
  cache_of st !! offset die = None →
  die_to_ctype cu (S n) die st
  = Raise (TypeError ("What is a type " ++ tag die ++ "?")) (create_cache st).
Proof.
  intros Hnot Hmiss. cbn [die_to_ctype].
  rewrite die_to_ctype_body_miss by done. by rewrite kind_unsupported.
Qed.

Lemma unsupported_kind_is_fatal_witness :
  die_to_ctype TypeExamples.cu 1 TypeExamples.d_f initial_state
  = Raise (TypeError "What is a type DW_TAG_subprogram?")
          (create_cache initial_state).
Proof.
  apply (unsupported_kind_is_fatal TypeExamples.cu 0 TypeExamples.d_f
           initial_state).
  - cbn. intros H. repeat (destruct H as [H|H]; [discriminate H|]). exact H.
  - reflexivity.
Defined.



(** X6. [die_get_at_type] never raises [KeyError]; and a pointer entry
    whose pointee's reconstruction ends in a [KeyError] is not an error
    but a Pointer model to [CVoid], built in the state the failed
    attempt left. *)
Theorem keyerror_in_pointee_gives_void_pointer (cu : Z → DIE) (n : nat)
  (die : DIE) (a : Z) (st st1 : State) :
  tag die = "DW_TAG_pointer_type" →
  attributes die !! "DW_AT_type" = Some (AInt a) →
  tag (cu a) ≠ "DW_TAG_subroutine_type" →
  cache_of st !! offset die = None →
  die_to_ctype cu n (cu a) st = Raise KeyError st1 →
  die_to_ctype cu (S n) die st
  = Ret (RObj (List.length (heap st1)))
        (mkState (Some (<[offset die := RObj (List.length (heap st1))]>
                          (cache_of st1)))
                 (heap st1 ++ [CPointer die CVoid])%list)
  ∧ ∀ rec d s e s',
      die_get_at_type cu rec d s = Raise e s' → e ≠ KeyError.
Proof.
  intros Htag Ha Hsub Hmiss Hrun. split.
  - cbn [die_to_ctype].
    rewrite die_to_ctype_body_miss, kind_pointer by done.
    unfold pointer_type.
    assert (Hof : die_get_at_type cu (die_to_ctype cu n) die (create_cache st)
                  = Ret CVoid st1).
    { unfold die_get_at_type, except_KeyError, bind, attr. rewrite Ha.
      cbn [as_int ret]. by rewrite die_to_ctype_create_cache, Hrun. }
    rewrite (bind_Ret _ _ _ _ _ Hof).
    rewrite (has_attr_Some _ _ _ Ha). unfold bind at 1 2 3, attr.
    rewrite Ha. cbn [as_int ret]. unfold tag_is.
    rewrite (proj2 (String.eqb_neq _ _) Hsub). by rewrite cache_ctype_run.
  - intros rec d s e s' Hraise ->.
    unfold die_get_at_type, except_KeyError in Hraise.
    destruct (bind _ _ s) as [x s1|[] s1| |]; try discriminate Hraise.
Qed.

Lemma keyerror_in_pointee_gives_void_pointer_witness :
  ∃ st',
    die_to_ctype KindExamples.cu 3 KindExamples.d_bits_ptr initial_state
    = Ret (RObj 2) st'
    ∧ heap st' !! 2%nat = Some (CPointer KindExamples.d_bits_ptr CVoid).
Proof.
  pose (st1 := match die_to_ctype KindExamples.cu 2 TypeExamples.d_bits
                       initial_state with
               | Raise _ s => s
               | _ => initial_state
               end).
  assert (Hfail : die_to_ctype KindExamples.cu 2 (KindExamples.cu 90)
                    initial_state = Raise KeyError st1).
  { vm_compute. reflexivity. }
  eexists. split.
  - apply (proj1 (keyerror_in_pointee_gives_void_pointer KindExamples.cu 2
                    KindExamples.d_bits_ptr 90 initial_state st1
                    eq_refl eq_refl ltac:(discriminate) eq_refl Hfail)).
  - vm_compute. reflexivity.
Defined.

Section ArrayLength.

Lemma for_fold_app {S A B} (body : B → A → M S B) (l1 l2 : list A) (acc : B) :
  ∀ st, for_fold body (l1 ++ l2)%list acc st
        = bind (for_fold body l1 acc) (fun a => for_fold body l2 a) st.
Proof.
  revert acc. induction l1 as [|x l1 IH]; intros acc st; [done|].
  cbn. unfold bind. destruct (body acc x st) as [a s1|e s1| |]; [|done..].
  exact (IH a s1).
Qed.

Lemma array_length_step_state acc c st x st' :
  array_length_step acc c st = Ret x st' → st' = st.
Proof.
  unfold array_length_step, bind, attr.
  destruct (_ && _); [|by intros [= _ ->]].
  destruct (attributes c !! "DW_AT_upper_bound") as [[z|s]|]; cbn;
    by intros [= _ <-] || discriminate.
Qed.

Lemma array_length_fold_state cs acc st x st' :
  for_fold array_length_step cs acc st = Ret x st' → st' = st.
Proof.
  revert acc st. induction cs as [|c cs IH]; intros acc st; cbn.
  - by intros [= _ <-].
  - unfold bind. destruct (array_length_step acc c st) as [y s1| | |] eqn:E;
      try discriminate.
    intros H. apply IH in H. apply array_length_step_state in E. congruence.
Qed.

Lemma array_length_step_skip acc c st :
  ¬ has_upper_bound c → array_length_step acc c st = Ret acc st.
Proof.
  intros Hno. unfold array_length_step, tag_is, has_attr.
  destruct (String.eqb_spec (tag c) "DW_TAG_subrange_type") as [Htag|]; [|done].
  rewrite bool_decide_eq_false_2; [done|]. intros Hsome. by apply Hno.
Qed.

Lemma array_length_fold_skip cs acc st :
  Forall (fun d => ¬ has_upper_bound d) cs →
  for_fold array_length_step cs acc st = Ret acc st.
Proof.
  induction 1 as [|c cs Hc _ IH]; [done|].
  cbn. unfold bind. by rewrite array_length_step_skip.
Qed.

Lemma array_length_fold_last pre c post u acc st x st' :
  tag c = "DW_TAG_subrange_type" →
  attributes c !! "DW_AT_upper_bound" = Some (AInt u) →
  Forall (fun d => ¬ has_upper_bound d) post →
  for_fold array_length_step (pre ++ c :: post)%list acc st = Ret x st' →
  x = Some (u + 1).
Proof.
  intros Htag Hu Hpost. rewrite for_fold_app. unfold bind at 1.
  destruct (for_fold array_length_step pre acc st) as [a s1| | |]; try done.
  cbn [for_fold]. unfold bind at 1.
  unfold array_length_step at 1, tag_is. rewrite Htag.
  rewrite (has_attr_Some _ _ _ Hu). cbn [String.eqb Ascii.eqb Bool.eqb andb].
  unfold bind at 1 2, attr. rewrite Hu. cbn [as_int ret].
  rewrite array_length_fold_skip by done. by intros [= <- _].
Qed.

End ArrayLength.

(** X7. The length of a reconstructed array is the upper bound plus one
    of the last subrange child that has an upper bound (so of the last
    dimension only, for an array of several dimensions), and is absent
    when no child gives an upper bound. *)
Theorem array_length_from_last_subrange (cu : Z → DIE) (n : nat) (die : DIE)
  (st st' : State) (r : ref) :
  tag die = "DW_TAG_array_type" →
  cache_of st !! offset die = None →
  die_to_ctype cu (S n) die st = Ret r st' →
  ∃ of_ len,
    heap_get st' r = Some (CArray die of_ len)
    ∧ (∀ pre c post u,
         children die = (pre ++ c :: post)%list →
         tag c = "DW_TAG_subrange_type" →
         attributes c !! "DW_AT_upper_bound" = Some (AInt u) →
         Forall (fun d => ¬ has_upper_bound d) post →
         len = Some (u + 1))
    ∧ (Forall (fun d => ¬ has_upper_bound d) (children die) → len = None).
Proof.
  intros Htag Hmiss Hrun. cbn [die_to_ctype] in Hrun.
  rewrite die_to_ctype_body_miss, kind_array in Hrun by done.
  unfold array_type in Hrun. unfold bind at 1 in Hrun.
  destruct (for_fold array_length_step (children die) None (create_cache st))
    as [len s1| | |] eqn:Hfold; try done.
  unfold bind in Hrun.
  destruct (die_get_at_type cu (die_to_ctype cu n) die s1)
    as [of_ s2| | |]; try done.
  rewrite cache_ctype_run in Hrun. injection Hrun as <- <-.
  exists of_, len. split; [|split].
  - cbn. by rewrite lookup_app_r, Nat.sub_diag.
  - intros pre c post u Hchildren Hc Hu Hpost. rewrite Hchildren in Hfold.
    by eapply array_length_fold_last.
  - intros Hnone. rewrite array_length_fold_skip in Hfold by done.
    by injection Hfold as <- _.
Qed.

Lemma array_length_from_last_subrange_witness :
  ∃ st' of_,
    die_to_ctype TypeExamples.cu 2 TypeExamples.d_int3 initial_state
    = Ret (RObj 1) st'
    ∧ heap_get st' (RObj 1) = Some (CArray TypeExamples.d_int3 of_ (Some 3)).
Proof.
  pose (st' := match die_to_ctype TypeExamples.cu 2 TypeExamples.d_int3
                       initial_state with
               | Ret _ s => s
               | _ => initial_state
               end).
  assert (Hrun : die_to_ctype TypeExamples.cu 2 TypeExamples.d_int3
                   initial_state = Ret (RObj 1) st').
  { vm_compute. reflexivity. }
  destruct (array_length_from_last_subrange TypeExamples.cu 1
              TypeExamples.d_int3 initial_state st' (RObj 1)
              eq_refl eq_refl Hrun) as (of_ & len & Hobj & Hlast & _).
  exists st', of_. split; [exact Hrun|].
  rewrite (Hlast [] (mk "DW_TAG_subrange_type" 61
                        [("DW_AT_upper_bound", AInt 2)] []) [] 2
             eq_refl eq_refl eq_refl (Forall_nil_2 _)) in Hobj.
  exact Hobj.
Defined.

Section EnumMembers.



End EnumMembers.



(** ** More on the symbol linkage table *)

(** X9. The table is built once: after a successful call of [is_static]
    the cache is filled, and any table whose cache is filled answers
    every query from it, returning the table as it is, whatever its
    stream and sizes are. *)
Theorem is_static_memoised (symtab symtab' : SymbolTableSection)
  (name : option string) (r : bool * bool) :
  is_static symtab name = inr (r, symtab') →
  ∃ c, _static_cache symtab' = Some c
       ∧ ∀ t name2,
           _static_cache t = Some c →
           is_static t name2
           = inr (match name2 ≫= (fun n => c !! n) with
                  | Some l => (true, l)
                  | None => (false, false)
                  end, t).
Proof.
  intros Hrun.
  assert (∃ c, _static_cache symtab' = Some c) as [c Hc].
  { unfold is_static in Hrun.
    destruct (_static_cache symtab) as [c|] eqn:Hcache.
    - exists c. destruct (name ≫= _); by injection Hrun as _ <-.
    - destruct (build_static_cache symtab) as [e|c]; [done|]. exists c.
      destruct (name ≫= _); by injection Hrun as _ <-. }
  exists c. split; [done|]. intros t name2 Ht. unfold is_static.
  rewrite Ht. by destruct (name2 ≫= _).
Qed.

Lemma is_static_memoised_witness :
  ∃ t, is_static SymtabExample.table (Some "main") = inr (true, false, t)
       ∧ is_static t (Some "helper") = inr (true, true, t)
       ∧ is_static t (Some "printf") = inr (false, false, t).
Proof.
  pose (t := set_static_cache SymtabExample.table
               (<["helper" := true]> (<["counter" := false]>
                  (<["main" := false]> ∅)))).
  assert (Hrun : is_static SymtabExample.table (Some "main")
                 = inr (true, false, t)) by (vm_compute; reflexivity).
  destruct (is_static_memoised _ _ _ _ Hrun) as (c & Hc & Hquery).
  exists t. split; [exact Hrun|].
  injection Hc as <-.
  split; [exact (Hquery t (Some "helper") eq_refl)|].
  exact (Hquery t (Some "printf") eq_refl).
Defined.

Section SymtabMore.

Variable strtab : Z → string.

Lemma lookup_add_records pre r post n l (m : gmap string bool) :
  record_entry strtab r = Some (n, l) →
  Forall (fun r' => fst <$> record_entry strtab r' ≠ Some n) post →
  fold_left (add_record strtab) (pre ++ r :: post)%list m !! n = Some l.
Proof.
  intros Hr Hpost. rewrite fold_left_app. cbn [fold_left].
  unfold add_record at 2. rewrite Hr.
  generalize (fold_left (add_record strtab) pre m). intros m0.
  assert (H : <[n := l]> m0 !! n = Some l) by apply lookup_insert_eq.
  revert H. generalize (<[n := l]> m0). clear m0.
  induction Hpost as [|r' post Hr' _ IH]; intros m' Hm'; [done|].
  cbn [fold_left]. apply IH. unfold add_record.
  destruct (record_entry strtab r') as [[n' l']|]; [|done].
  rewrite lookup_insert_ne; [done|]. intros ->. by apply Hr'.
Qed.

Lemma unpack_length b x :
  ELF_SYM_STRUCT_unpack b = inr x → List.length b = ELF_SYM_STRUCT_size.
Proof.
  unfold ELF_SYM_STRUCT_unpack.
  do 14 (destruct b as [|? b]; try discriminate). done.
Qed.

Lemma unpack_error b e : ELF_SYM_STRUCT_unpack b = inl e → e = StructError.
Proof.
  unfold ELF_SYM_STRUCT_unpack.
  do 14 (destruct b as [|? b]; try (by intros [= <-]); try discriminate).
Qed.

Lemma scan_symbols_short buf positions static p :
  p ∈ positions →
  List.length (take ELF_SYM_STRUCT_size (drop p buf)) ≠ ELF_SYM_STRUCT_size →
  scan_symbols strtab buf positions static = inl StructError.
Proof.
  intros Hin Hshort. revert static.
  induction positions as [|q positions IH]; intros static.
  - by apply elem_of_nil in Hin.
  - cbn [scan_symbols].
    destruct (ELF_SYM_STRUCT_unpack (take ELF_SYM_STRUCT_size (drop q buf)))
      as [e|[st_name st_info]] eqn:Hq.
    + by rewrite (unpack_error _ _ Hq).
    + apply elem_of_cons in Hin as [-> | Hin].
      * by apply unpack_length in Hq.
      * by apply IH.
Qed.

Lemma range_step_multiple n e :
  (0 < e)%nat →
  range_step (n * e) e = map (fun k => k * e)%nat (seq 0 n).
Proof.
  intros He. unfold range_step. f_equal. f_equal.
  replace (n * e + e - 1)%nat with (n * e + (e - 1))%nat by lia.
  rewrite Nat.div_add_l by lia. rewrite Nat.div_small by lia. lia.
Qed.

Lemma length_concat_uniform e (recs : list (list byte)) :
  Forall (fun r => List.length r = e) recs →
  List.length (concat recs) = (List.length recs * e)%nat.
Proof.
  induction 1 as [|r recs Hr _ IH]; [done|].
  cbn. rewrite length_app, Hr, IH. done.
Qed.

End SymtabMore.

(** X10. When several function or object records carry the same name,
    the binding reported for it is that of the last of them: the flag is
    whether the upper four bits of its info byte are [STB_LOCAL]. *)
Theorem is_static_last_record_wins (strtab : Z → string) (entsize : nat)
  (before after : list byte) (pre post : list (list byte)) (r : list byte)
  (n : string) (l : bool) :
  (ELF_SYM_STRUCT_size ≤ entsize)%nat →
  Forall (fun r => List.length r = entsize) (pre ++ r :: post)%list →
  record_entry strtab r = Some (n, l) →
  Forall (fun r' => fst <$> record_entry strtab r' ≠ Some n) post →
  ∃ t, is_static (symtab_of strtab entsize before (pre ++ r :: post)%list after)
                 (Some n)
       = inr (true, l, t).
Proof.
  intros Hsize Hall Hr Hpost. unfold is_static.
  rewrite (build_static_cache_records strtab entsize Hsize) by done.
  change (_static_cache (symtab_of _ _ _ _ _)) with (@None (gmap string bool)).
  cbn. rewrite (lookup_add_records strtab pre r post n l ∅ Hr Hpost).
  by eexists.
Qed.

Lemma is_static_last_record_wins_witness :
  ∃ t, is_static
         (symtab_of SymtabExample.strtab 16 []
            [SymtabExample.sym x01 x12; SymtabExample.sym x00 x03;
             SymtabExample.sym x01 x02] [])
         (Some "main")
       = inr (true, true, t).
Proof.
  apply (is_static_last_record_wins SymtabExample.strtab 16 [] []
           [SymtabExample.sym x01 x12; SymtabExample.sym x00 x03]
           [] (SymtabExample.sym x01 x02) "main" true).
  - vm_compute. lia.
  - repeat constructor.
  - reflexivity.
  - constructor.
Defined.

(** X11. A table whose record size is zero makes [is_static] raise
    [ValueError] (the step of the scan is zero), and a table with at
    least one record whose record size is below the thirteen bytes the
    scan unpacks makes it raise [struct.error]; in both cases nothing is
    memoised. *)
Theorem is_static_bad_record_size (strtab : Z → string) (entsize : nat)
  (before after : list byte) (recs : list (list byte))
  (name : option string) :
  (entsize < ELF_SYM_STRUCT_size)%nat →
  Forall (fun r => List.length r = entsize) recs →
  (entsize = 0%nat →
   is_static (symtab_of strtab entsize before recs after) name
   = inl (ValueError "range() arg 3 must not be zero"))
  ∧ ((0 < entsize)%nat → recs ≠ [] →
     is_static (symtab_of strtab entsize before recs after) name
     = inl StructError).
Proof.
  intros Hsmall Hall. unfold is_static, build_static_cache, symtab_of.
  cbn [_static_cache sh_entsize sh_offset num_symbols stream get_string].
  split.
  - by intros ->.
  - intros Hpos Hne.
    destruct (Nat.eqb_spec entsize 0) as [->|_]; [lia|].
    rewrite drop_app_length.
    rewrite take_app_length'
      by (rewrite (length_concat_uniform entsize) by done; lia).
    rewrite (length_concat_uniform entsize), range_step_multiple by done.
    rewrite (scan_symbols_short strtab _ _ _
               ((List.length recs - 1) * entsize)%nat); [done| |].
    + apply list_elem_of_In, in_map_iff. exists (List.length recs - 1)%nat.
      split; [done|]. apply in_seq. destruct recs; [done|]. cbn. lia.
    + rewrite length_take, length_drop,
        (length_concat_uniform entsize) by done.
      unfold ELF_SYM_STRUCT_size in *. destruct recs; [done|].
      cbn [List.length]. nia.
Qed.

Lemma is_static_bad_record_size_witness :
  is_static (symtab_of SymtabExample.strtab 0 [] [] []) (Some "main")
  = inl (ValueError "range() arg 3 must not be zero")
  ∧ is_static (symtab_of SymtabExample.strtab 8 []
                 [[x01; x00; x00; x00; x00; x00; x00; x12]] [])
              (Some "main")
    = inl StructError.
Proof.
  split.
  - apply (proj1 (is_static_bad_record_size SymtabExample.strtab 0 [] [] []
                    (Some "main") ltac:(vm_compute; lia) (Forall_nil_2 _))).
    reflexivity.
  - apply (proj2 (is_static_bad_record_size SymtabExample.strtab 8 [] []
                    [[x01; x00; x00; x00; x00; x00; x00; x12]]
                    (Some "main") ltac:(vm_compute; lia)
                    ltac:(repeat constructor))).
    + lia.
    + discriminate.
Defined.

(** ** More on the definition context *)

Section ContextMore.

Lemma alter_signature_lookup (g : CFunction → CFunction) f (h : list CFunction)
  l fd :
  (∀ x, fn_die (g x) = fn_die x ∧ fn_name (g x) = fn_name x
        ∧ fn_static (g x) = fn_static x) →
  h !! l = Some fd →
  ∃ fd', alter g f h !! l = Some fd'
         ∧ fn_die fd' = fn_die fd ∧ fn_name fd' = fn_name fd
         ∧ fn_static fd' = fn_static fd.
Proof.
  intros Hg Hl. destruct (decide (f = l)) as [->|Hne].
  - exists (g fd). rewrite list_lookup_alter_eq, Hl. split; [done|]. apply Hg.
  - exists fd. by rewrite list_lookup_alter_ne.
Qed.

Lemma def_func_cases w f fd inline w' :
  fheap w !! f = Some fd →
  def_func f inline w = Ret tt w' →
  types w' = types w ∧ symtab w' = symtab w
  ∧ ctx_name (ctx w') = ctx_name (ctx w)
  ∧ ((funcs (ctx w) !! fn_name fd = None
      ∧ funcs (ctx w') = <[fn_name fd := (f, true)]> (funcs (ctx w))
      ∧ fheap w' = fheap w)
     ∨ (∃ f0, funcs (ctx w) !! fn_name fd = Some (f0, true)
              ∧ inline = true ∧ w' = w)
     ∨ (∃ f0, funcs (ctx w) !! fn_name fd = Some (f0, false)
              ∧ funcs (ctx w') = funcs (ctx w)
              ∧ fheap w'
                = alter (set_args (fn_args fd)) f0
                    (alter (set_return_type (fn_return_type fd)) f0
                       (fheap w)))).
Proof.
  intros Hfd Hrun.
  destruct (funcs (ctx w) !! fn_name fd) as [[f0 [|]]|] eqn:Hrec.
  - destruct inline.
    + rewrite (def_func_defined_inline w f fd f0 Hfd Hrec) in Hrun.
      injection Hrun as <-. repeat split; eauto 10.
    + by rewrite (def_func_defined_odr w f fd f0 Hfd Hrec) in Hrun.
  - rewrite (def_func_declared w f fd f0 inline Hfd Hrec) in Hrun.
    injection Hrun as <-. cbn. repeat split; eauto 10.
  - rewrite (def_func_new w f fd inline Hfd Hrec) in Hrun.
    injection Hrun as <-. cbn. repeat split; eauto 10.
Qed.

End ContextMore.

(** X12. [def_func] and [decl_func] are local: they leave the records of
    every other name, the name of the context, the type models and the
    symbol table as they were; they neither add nor remove a function
    object, and every function object keeps its entry, name and linkage
    flag (only the signature of the object recorded for the name can
    change). *)
Theorem context_update_is_local (w w' : World) (f : nat) (fd : CFunction)
  (inline : bool) :
  fheap w !! f = Some fd →
  def_func f inline w = Ret tt w' ∨ decl_func f w = Ret tt w' →
  (∀ k, k ≠ fn_name fd → funcs (ctx w') !! k = funcs (ctx w) !! k)
  ∧ ctx_name (ctx w') = ctx_name (ctx w)
  ∧ types w' = types w ∧ symtab w' = symtab w
  ∧ List.length (fheap w') = List.length (fheap w)
  ∧ functions_kept w w'
  ∧ (∀ g, (∀ d, funcs (ctx w) !! fn_name fd ≠ Some (g, d)) →
          fheap w' !! g = fheap w !! g).
Proof.
  unfold functions_kept. intros Hfd [Hrun | Hrun].
  - destruct (def_func_cases w f fd inline w' Hfd Hrun)
      as (Ht & Hs & Hn & [(Hnone & Hfuncs & Hheap)
                         | [(f0 & Hrec & _ & ->)
                           | (f0 & Hrec & Hfuncs & Hheap)]]).
    + rewrite Hfuncs, Hheap. repeat split; try done.
      * intros k Hk. apply lookup_insert_ne. by apply not_eq_sym.
      * intros g gd Hg. by exists gd.
    + repeat split; try done. intros g gd Hg. by exists gd.
    + rewrite Hfuncs, Hheap. repeat split; try done.
      * by rewrite !length_alter.
      * intros g gd Hg.
        destruct (alter_signature_lookup
                    (set_return_type (fn_return_type fd)) f0 (fheap w) g gd)
          as (gd1 & Hg1 & E1 & E2 & E3); [done|done|].
        destruct (alter_signature_lookup (set_args (fn_args fd)) f0
                    (alter (set_return_type (fn_return_type fd)) f0 (fheap w))
                    g gd1)
          as (gd2 & Hg2 & E1' & E2' & E3'); [done|done|].
        exists gd2. split; [done|]. split; [congruence|]. split; congruence.
      * intros g Hg. rewrite !list_lookup_alter_ne; [done|..];
          intros ->; by apply (Hg false).
  - unfold decl_func, bind, deref in Hrun. rewrite Hfd in Hrun.
    injection Hrun as <-. cbn. repeat split; try done.
    + intros k Hk. apply lookup_insert_ne. by apply not_eq_sym.
    + intros g gd Hg. by exists gd.
Qed.

Lemma context_update_is_local_witness :
  ∃ w', def_func 1 false ContextExamples.declared = Ret tt w'
        ∧ List.length (fheap w') = 3%nat
        ∧ fheap w' !! 2%nat = Some ContextExamples.f_def'.
Proof.
  pose (w' := match def_func 1 false ContextExamples.declared with
              | Ret _ w' => w'
              | _ => ContextExamples.declared
              end).
  assert (Hrun : def_func 1 false ContextExamples.declared = Ret tt w')
    by (vm_compute; reflexivity).
  destruct (context_update_is_local ContextExamples.declared w' 1
              ContextExamples.f_def false eq_refl (or_introl Hrun))
    as (_ & _ & _ & _ & Hlen & _ & Hother).
  exists w'. split; [exact Hrun|]. split; [exact Hlen|].
  rewrite (Hother 2%nat); [reflexivity|].
  intros d. vm_compute. discriminate.
Defined.

Section ClassifierInvariant.

Variable cu : Z → DIE.
Variable P : World → Prop.

Hypothesis P_frame :
  ∀ w st t, P w → P (mkWorld st (fheap w) (ctx w) t).
Hypothesis P_new_func : ∀ fd, keeps P (new_func fd).
Hypothesis P_def_func : ∀ f inline, keeps P (def_func f inline).
Hypothesis P_decl_func : ∀ f, keeps P (decl_func f).

Lemma keeps_ret {A} (a : A) : keeps P (ret a).
Proof. constructor. by intros w H. Qed.

Lemma keeps_bind {A B} (m : M World A) (k : A → M World B) :
  keeps P m → (∀ a, keeps P (k a)) → keeps P (bind m k).
Proof.
  intros [Hm] Hk. constructor. intros w H. unfold bind. specialize (Hm w H).
  destruct (m w) as [a w1|e w1| |]; try done.
  destruct (Hk a) as [Hka]. by apply Hka.
Qed.

Lemma keeps_die_get_name die : keeps P (die_get_name die).
Proof.
  constructor. intros w H. unfold die_get_name, bind, attr.
  destruct (has_attr "DW_AT_name" die); [|done].
  destruct (attributes die !! "DW_AT_name") as [[z|s]|]; done.
Qed.

Lemma keeps_lift_types {A} (m : M State A) : keeps P (lift_types m).
Proof.
  constructor. intros w H. unfold lift_types.
  destruct (m (types w)) as [a st|e st| |]; try done; by apply P_frame.
Qed.

Lemma keeps_is_static_w name : keeps P (is_static_w name).
Proof.
  constructor. intros w H. unfold is_static_w.
  destruct (is_static (symtab w) name) as [e|[r t]]; [done|].
  by apply P_frame.
Qed.

Lemma keeps_func name : keeps P (func name).
Proof. constructor. by intros w H. Qed.

Lemma keeps_new_func_from fuel die name static :
  keeps P (new_func_from cu fuel die name static).
Proof.
  unfold new_func_from. apply keeps_bind; [apply keeps_lift_types|].
  intros ra. apply P_new_func.
Qed.

Lemma keeps_die_to_ctype_or_func fuel die :
  keeps P (die_to_ctype_or_func cu fuel die).
Proof.
  unfold die_to_ctype_or_func.
  destruct (negb (tag_is "DW_TAG_subprogram" die)).
  { apply keeps_bind; [apply keeps_lift_types|]. intros t. apply keeps_ret. }
  apply keeps_bind; [apply keeps_die_get_name|]. intros name.
  apply keeps_bind; [apply keeps_is_static_w|]. intros present.
  destruct (snd present).
  { apply keeps_bind; [apply keeps_new_func_from|]. intros f.
    apply keeps_ret. }
  destruct (fst present).
  { apply keeps_bind; [apply keeps_new_func_from|]. intros f.
    apply keeps_bind; [apply P_def_func|]. intros _. apply keeps_ret. }
  apply keeps_bind; [apply keeps_func|]. intros [f|].
  { apply keeps_ret. }
  apply keeps_bind; [apply keeps_new_func_from|]. intros f.
  apply keeps_bind; [apply P_decl_func|]. intros _. apply keeps_ret.
Qed.

End ClassifierInvariant.

Section RecordsNamed.

Lemma def_func_raises w f inline e w' :
  def_func f inline w = Raise e w' → w' = w.
Proof.
  intros Hrun. destruct (fheap w !! f) as [fd|] eqn:Hfd.
  2:{ unfold def_func, bind, deref in Hrun. by rewrite Hfd in Hrun. }
  destruct (funcs (ctx w) !! fn_name fd) as [[f0 [|]]|] eqn:Hrec.
  - destruct inline.
    + by rewrite (def_func_defined_inline w f fd f0 Hfd Hrec) in Hrun.
    + rewrite (def_func_defined_odr w f fd f0 Hfd Hrec) in Hrun.
      by injection Hrun as _ <-.
  - by rewrite (def_func_declared w f fd f0 inline Hfd Hrec) in Hrun.
  - by rewrite (def_func_new w f fd inline Hfd Hrec) in Hrun.
Qed.

Lemma records_named_new_func fd : keeps records_named (new_func fd).
Proof.
  constructor. intros w H k f d Hk. cbn in *.
  destruct (H k f d Hk) as (gd & Hf & Hname).
  exists gd. split; [|done]. by apply lookup_app_l_Some.
Qed.

Lemma records_named_decl_func f : keeps records_named (decl_func f).
Proof.
  constructor. intros w H. unfold decl_func, bind, deref.
  destruct (fheap w !! f) as [fd|] eqn:Hfd; [|done]. cbn.
  intros k g d. cbn. destruct (decide (fn_name fd = k)) as [<-|Hne].
  - rewrite lookup_insert_eq. intros [= <- <-]. eauto.
  - rewrite lookup_insert_ne by done. apply H.
Qed.

Lemma records_named_def_func f inline : keeps records_named (def_func f inline).
Proof.
  constructor. intros w H.
  destruct (def_func f inline w) as [[] w'|e w'| |] eqn:Hrun; [| |done..].
  - destruct (fheap w !! f) as [fd|] eqn:Hfd.
    2:{ unfold def_func, bind, deref in Hrun. by rewrite Hfd in Hrun. }
    destruct (def_func_cases w f fd inline w' Hfd Hrun)
      as (_ & _ & _ & [(Hnone & Hfuncs & Hheap)
                      | [(f0 & Hrec & _ & ->)
                        | (f0 & Hrec & Hfuncs & Hheap)]]).
    + intros k g d. rewrite Hfuncs, Hheap.
      destruct (decide (fn_name fd = k)) as [<-|Hne].
      * rewrite lookup_insert_eq. intros [= <- <-]. eauto.
      * rewrite lookup_insert_ne by done. apply H.
    + done.
    + intros k g d. rewrite Hfuncs, Hheap. intros Hk.
      destruct (H k g d Hk) as (gd & Hg & Hname).
      destruct (alter_signature_lookup
                  (set_return_type (fn_return_type fd)) f0 (fheap w) g gd)
        as (gd1 & Hg1 & _ & E1 & _); [done|done|].
      destruct (alter_signature_lookup (set_args (fn_args fd)) f0
                  (alter (set_return_type (fn_return_type fd)) f0 (fheap w))
                  g gd1)
        as (gd2 & Hg2 & _ & E2 & _); [done|done|].
      exists gd2. split; [done|]. congruence.
  - by rewrite (def_func_raises _ _ _ _ _ Hrun).
Qed.

End RecordsNamed.

(** X13. The classification of an entry keeps the context well formed:
    if every record refers to a function object of the heap bearing the
    name it is recorded under, this still holds after
    [die_to_ctype_or_func], whether it returns or raises. *)
Theorem classifier_keeps_records_named (cu : Z → DIE) (fuel : nat)
  (die : DIE) (w : World) :
  records_named w →
  match die_to_ctype_or_func cu fuel die w with
  | Ret _ w' | Raise _ w' => records_named w'
  | _ => True
  end.
Proof.
  intros Hw.
  destruct (keeps_die_to_ctype_or_func cu records_named) with (fuel := fuel)
    (die := die) as [Hkeep].
  - intros w0 st t H k f d Hk. exact (H k f d Hk).
  - apply records_named_new_func.
  - apply records_named_def_func.
  - apply records_named_decl_func.
  - exact (Hkeep w Hw).
Qed.

Lemma classifier_keeps_records_named_witness :
  match die_to_ctype_or_func TypeExamples.cu 2 ClassifierExamples.d_f_def
          ClassifierExamples.world with
  | Ret _ w' | Raise _ w' => records_named w'
  | _ => True
  end.
Proof.
  apply (classifier_keeps_records_named TypeExamples.cu 2
           ClassifierExamples.d_f_def ClassifierExamples.world).
  intros k f d Hk.
  destruct (decide (k = Some "f")) as [->|Hne].
  - injection Hk as <- <-. by exists ContextExamples.f_decl.
  - unfold ClassifierExamples.world in Hk. cbn in Hk.
    by rewrite lookup_singleton_ne in Hk.
Defined.

Section ClassifierPaths.

Variable cu : Z → DIE.

Lemma classifier_subprogram fuel die s w present t :
  tag die = "DW_TAG_subprogram" →
  attributes die !! "DW_AT_name" = Some (ABytes s) →
  is_static (symtab w) (Some s) = inr (present, t) →
  die_to_ctype_or_func cu fuel die w
  = (if snd present : bool then
       let* cfunc := new_func_from cu fuel die (Some s) true in
       ret (inr cfunc)
     else if fst present : bool then
       let* cfunc := new_func_from cu fuel die (Some s) false in
       let* _ := def_func cfunc (has_attr "DW_AT_inline" die) in
       ret (inr cfunc)
     else
       let* known := func (Some s) in
       match known with
       | Some cfunc => ret (inr cfunc)
       | None =>
           let* cfunc := new_func_from cu fuel die (Some s) false in
           let* _ := decl_func cfunc in
           ret (inr cfunc)
       end)
      (mkWorld (types w) (fheap w) (ctx w) t).
Proof.
  intros Htag Hname Hsym.
  unfold die_to_ctype_or_func, tag_is. rewrite Htag.
  cbn [String.eqb Ascii.eqb Bool.eqb negb].
  unfold bind at 1. unfold die_get_name.
  rewrite (has_attr_Some _ _ _ Hname).
  unfold bind at 1, attr. rewrite Hname. cbn [decode ret bind].
  unfold bind at 1, is_static_w. rewrite Hsym. reflexivity.
Qed.

End ClassifierPaths.

(** X14. A function that the symbol table of the object reports as
    local is never entered in the context nor looked up in it: if the
    classification returns, the result is a new function object flagged
    static and the context is unchanged; if it raises, context and
    function objects are unchanged. *)
Theorem local_function_not_registered (cu : Z → DIE) (fuel : nat) (die : DIE)
  (w : World) (s : string) (t : SymbolTableSection) :
  tag die = "DW_TAG_subprogram" →
  attributes die !! "DW_AT_name" = Some (ABytes s) →
  is_static (symtab w) (Some s) = inr (true, true, t) →
  match die_to_ctype_or_func cu fuel die w with
  | Ret v w' =>
      v = inr (List.length (fheap w)) ∧ ctx w' = ctx w
      ∧ ∃ return_type args,
          fheap w' = (fheap w ++ [mkCFunction die (Some s) return_type args
                                    true])%list
  | Raise _ w' => ctx w' = ctx w ∧ fheap w' = fheap w
  | _ => True
  end.
Proof.
  intros Htag Hname Hsym.
  rewrite (classifier_subprogram cu fuel die s w _ t Htag Hname Hsym).
  cbn [snd]. unfold bind, new_func_from, lift_types, bind. cbn [types].
  destruct (die_to_funclike_args cu (die_to_ctype cu fuel) die (types w))
    as [ra st1|e st1| |]; try done.
  cbn. eauto.
Qed.

Lemma local_function_not_registered_witness :
  ∃ w', die_to_ctype_or_func TypeExamples.cu 1 ClassifierExamples.d_helper
          ClassifierExamples.world = Ret (inr 1%nat) w'
        ∧ ctx w' = ctx ClassifierExamples.world.
Proof.
  pose proof (local_function_not_registered TypeExamples.cu 1
                ClassifierExamples.d_helper ClassifierExamples.world "helper"
                ClassifierExamples.scanned_table
                eq_refl eq_refl ltac:(vm_compute; reflexivity)) as H.
  destruct (die_to_ctype_or_func TypeExamples.cu 1 ClassifierExamples.d_helper
              ClassifierExamples.world) as [v w'|e w'| |] eqn:Hrun;
    [|vm_compute in Hrun; discriminate Hrun..].
  destruct H as (-> & Hctx & _). by exists w'.
Defined.

(** X15. A function defined in the object whose name is recorded in the
    context as declared only: the classification returns a new function
    object, distinct from the recorded one; the recorded object keeps
    its entry, name and linkage and takes the return type and parameters
    of the definition, so both carry the same signature; the table of
    the context is not modified. *)
Theorem definition_over_declaration (cu : Z → DIE) (fuel : nat) (die : DIE)
  (w : World) (s : string) (t : SymbolTableSection) (f0 : nat)
  (fd0 : CFunction) (return_type : ref) (args : list (ref * option string))
  (st1 : State) :
  tag die = "DW_TAG_subprogram" →
  attributes die !! "DW_AT_name" = Some (ABytes s) →
  is_static (symtab w) (Some s) = inr (true, false, t) →
  funcs (ctx w) !! Some s = Some (f0, false) →
  fheap w !! f0 = Some fd0 →
  die_to_funclike_args cu (die_to_ctype cu fuel) die (types w)
  = Ret (return_type, args) st1 →
  ∃ w',
    die_to_ctype_or_func cu fuel die w = Ret (inr (List.length (fheap w))) w'
    ∧ List.length (fheap w) ≠ f0
    ∧ fheap w' !! List.length (fheap w)
      = Some (mkCFunction die (Some s) return_type args false)
    ∧ fheap w' !! f0
      = Some (mkCFunction (fn_die fd0) (fn_name fd0) return_type args
                          (fn_static fd0))
    ∧ ctx w' = ctx w.
Proof.
  intros Htag Hname Hsym Hrec Hf0 Hargs.
  rewrite (classifier_subprogram cu fuel die s w _ t Htag Hname Hsym).
  cbn [snd fst].
  set (new := mkCFunction die (Some s) return_type args false).
  set (w1 := mkWorld st1 (fheap w ++ [new])%list (ctx w) t).
  assert (Hnew : new_func_from cu fuel die (Some s) false
                   (mkWorld (types w) (fheap w) (ctx w) t)
                 = Ret (List.length (fheap w)) w1).
  { unfold new_func_from, bind, lift_types. cbn [types]. by rewrite Hargs. }
  assert (Hlt : (f0 < List.length (fheap w))%nat)
    by (by eapply lookup_lt_Some).
  assert (Hdef : def_func (List.length (fheap w)) (has_attr "DW_AT_inline" die)
                   w1
                 = Ret tt (mkWorld st1
                             (alter (set_args args) f0
                                (alter (set_return_type return_type) f0
                                   (fheap w ++ [new])%list))
                             (ctx w) t)).
  { apply (def_func_declared w1 _ new f0).
    - cbn. by rewrite lookup_app_r, Nat.sub_diag.
    - exact Hrec. }
  eexists. split.
  { rewrite (bind_Ret _ _ _ _ _ Hnew), (bind_Ret _ _ _ _ _ Hdef).
    reflexivity. }
  cbn [fheap ctx]. split; [lia|]. split; [|split; [|done]].
  - rewrite !list_lookup_alter_ne by lia.
    by rewrite lookup_app_r, Nat.sub_diag.
  - rewrite !list_lookup_alter_eq, lookup_app_l, Hf0 by done. reflexivity.
Qed.

Lemma definition_over_declaration_witness :
  ∃ w',
    die_to_ctype_or_func TypeExamples.cu 2 ClassifierExamples.d_f_def
      ClassifierExamples.world = Ret (inr 1%nat) w'
    ∧ fheap w' !! 0%nat
      = Some (mkCFunction ContextExamples.f_die (Some "f") CVoid
                          [(RObj 0, Some "x")] false)
    ∧ funcs (ctx w') !! Some "f" = Some (0%nat, false).
Proof.
  pose (st1 := match die_to_funclike_args TypeExamples.cu
                       (die_to_ctype TypeExamples.cu 2)
                       ClassifierExamples.d_f_def initial_state with
               | Ret _ s => s
               | _ => initial_state
               end).
  destruct (definition_over_declaration TypeExamples.cu 2
              ClassifierExamples.d_f_def ClassifierExamples.world "f"
              ClassifierExamples.scanned_table
              0 ContextExamples.f_decl CVoid [(RObj 0, Some "x")] st1)
    as (w' & Hrun & _ & _ & Hold & Hctx).
  - reflexivity.
  - reflexivity.
  - vm_compute. reflexivity.
  - reflexivity.
  - reflexivity.
  - vm_compute. reflexivity.
  - exists w'. split; [exact Hrun|]. split; [exact Hold|].
    rewrite Hctx. reflexivity.
Defined.

(** ** More on the assembly equivalence pipeline *)

Section DictLookup.

Context {K V : Type} `{EqDecision K}.

Lemma dict_get_set_eq (k : K) (v : V) (d : odict K V) :
  dict_get k (dict_set k v d) = Some v.
Proof.
  induction d as [|[k' v'] d IH]; cbn.
  - by rewrite decide_True.
  - destruct (decide (k = k')) as [->|Hne]; cbn.
    + by rewrite decide_True.
    + by rewrite decide_False.
Qed.

Lemma dict_get_set_ne (k k' : K) (v : V) (d : odict K V) :
  k ≠ k' → dict_get k (dict_set k' v d) = dict_get k d.
Proof.
  intros Hne. induction d as [|[k0 v0] d IH]; cbn.
  - by rewrite decide_False.
  - destruct (decide (k' = k0)) as [->|Hne0]; cbn.
    + by rewrite !decide_False.
    + destruct (decide (k = k0)); [done|]. apply IH.
Qed.

Lemma dict_keys_set (k : K) (v : V) (d : odict K V) :
  ∀ x, x ∈ dict_keys (dict_set k v d) ↔ x = k ∨ x ∈ dict_keys d.
Proof.
  unfold dict_keys. induction d as [|[k' v'] d IH]; intros x; cbn.
  - rewrite list_elem_of_singleton, elem_of_nil. tauto.
  - destruct (decide (k = k')) as [->|Hne]; cbn.
    + rewrite !elem_of_cons. tauto.
    + rewrite !elem_of_cons, IH. tauto.
Qed.

Lemma dict_keys_set_nodup (k : K) (v : V) (d : odict K V) :
  NoDup (dict_keys d) → NoDup (dict_keys (dict_set k v d)).
Proof.
  unfold dict_keys. induction d as [|[k' v'] d IH]; cbn; intros Hnodup.
  - apply NoDup_singleton.
  - apply NoDup_cons in Hnodup as [Hk' Hnodup].
    destruct (decide (k = k')) as [->|Hne]; cbn.
    + by apply NoDup_cons.
    + apply NoDup_cons. split; [|by apply IH].
      intros Hin. apply (dict_keys_set k v d) in Hin as [->|Hin]; done.
Qed.

Lemma dict_get_keys (k : K) (d : odict K V) :
  k ∈ dict_keys d ↔ is_Some (dict_get k d).
Proof.
  unfold dict_keys. induction d as [|[k' v'] d IH]; cbn.
  - rewrite elem_of_nil. split; [done|]. by intros [? ?].
  - rewrite elem_of_cons. destruct (decide (k = k')) as [->|Hne].
    + split; eauto.
    + rewrite IH. split; [|tauto]. by intros [? | ?].
Qed.

End DictLookup.

Section SimilarityMore.








End SimilarityMore.



Section CollectFuncs.

Context {AsmFunction : Type}.
Variable mkFunction : list string → AsmFunction.
Variable fname : AsmFunction → string.

Lemma collect_funcs_app s1 s2 acc :
  (collect_funcs AsmFunction mkFunction fname) (s1 ++ s2)%list acc
  = match (collect_funcs AsmFunction mkFunction fname) s1 acc with
    | inl e => inl e
    | inr d => (collect_funcs AsmFunction mkFunction fname) s2 d
    end.
Proof.
  revert acc. induction s1 as [|lines s1 IH]; intros acc; [done|].
  cbn. destruct lines as [|l0 rest]; [done|].
  destruct (negb (is_funcion_section l0)); apply IH.
Qed.

Lemma collect_funcs_total sections acc :
  [] ∉ sections → ∃ d, (collect_funcs AsmFunction mkFunction fname) sections acc = inr d.
Proof.
  revert acc. induction sections as [|lines sections IH]; intros acc Hne.
  - by exists acc.
  - apply not_elem_of_cons in Hne as [Hlines Hne].
    destruct lines as [|l0 rest]; [done|]. cbn.
    destruct (negb (is_funcion_section l0)); by apply IH.
Qed.

Lemma collect_funcs_empty_section sections acc :
  [] ∈ sections → (collect_funcs AsmFunction mkFunction fname) sections acc = inl IndexError.
Proof.
  revert acc. induction sections as [|lines sections IH]; intros acc Hin.
  - by apply elem_of_nil in Hin.
  - destruct lines as [|l0 rest]; [done|].
    apply elem_of_cons in Hin as [?|Hin]; [done|]. cbn.
    destruct (negb (is_funcion_section l0)); by apply IH.
Qed.

Lemma collect_funcs_nodup sections acc d :
  NoDup (dict_keys acc) → (collect_funcs AsmFunction mkFunction fname) sections acc = inr d →
  NoDup (dict_keys d).
Proof.
  revert acc. induction sections as [|lines sections IH]; intros acc Hacc.
  - by intros [= <-].
  - cbn. destruct lines as [|l0 rest]; [done|].
    destruct (negb (is_funcion_section l0)); [by apply IH|].
    apply IH. by apply dict_keys_set_nodup.
Qed.

Lemma collect_funcs_other_names sections acc d n :
  Forall (fun lines => code_section lines = true →
                       fname (mkFunction lines) ≠ n) sections →
  (collect_funcs AsmFunction mkFunction fname) sections acc = inr d →
  dict_get n d = dict_get n acc.
Proof.
  intros Hall. revert acc.
  induction Hall as [|lines sections Hlines _ IH]; intros acc.
  - by intros [= <-].
  - cbn. destruct lines as [|l0 rest]; [done|]. cbn in Hlines.
    destruct (is_funcion_section l0); cbn; [|by apply IH].
    intros Hrun. rewrite (IH _ Hrun). apply dict_get_set_ne.
    apply not_eq_sym. by apply Hlines.
Qed.

End CollectFuncs.

(** X17. If no section of the disassembly is empty, the function table
    is built, its names are distinct, sections that are not code sections
    contribute nothing, and a name is mapped to the function of the last
    code section that bears it; an empty section makes the collection
    raise [IndexError]. *)
Theorem collect_funcs_last_section_wins {AsmFunction : Type}
  (mkFunction : list string → AsmFunction) (fname : AsmFunction → string)
  (sections : list (list string)) :
  ([] ∈ sections →
   collect_funcs AsmFunction mkFunction fname sections [] = inl IndexError)
  ∧ ([] ∉ sections →
     ∃ d, collect_funcs AsmFunction mkFunction fname sections [] = inr d
          ∧ NoDup (dict_keys d)
          ∧ (∀ pre lines post,
               sections = (pre ++ lines :: post)%list →
               code_section lines = true →
               Forall (fun other => code_section other = true →
                                    fname (mkFunction other)
                                    ≠ fname (mkFunction lines)) post →
               dict_get (fname (mkFunction lines)) d
               = Some (mkFunction lines))
          ∧ (∀ n,
               Forall (fun lines => code_section lines = true →
                                    fname (mkFunction lines) ≠ n) sections →
               dict_get n d = None)).
Proof.
  split; [apply collect_funcs_empty_section|]. intros Hne.
  destruct (collect_funcs_total mkFunction fname sections [] Hne) as [d Hd].
  exists d. split; [done|]. split; [|split].
  - eapply collect_funcs_nodup; [|exact Hd]. apply NoDup_nil_2.
  - intros pre lines post -> Hcode Hpost.
    rewrite collect_funcs_app in Hd.
    destruct (collect_funcs AsmFunction mkFunction fname pre [])
      as [e|d0]; [done|].
    cbn in Hd. destruct lines as [|l0 rest]; [done|]. cbn in Hcode.
    rewrite Hcode in Hd. cbn in Hd.
    rewrite (collect_funcs_other_names _ _ _ _ _ _ Hpost Hd).
    apply dict_get_set_eq.
  - intros n Hall.
    by rewrite (collect_funcs_other_names _ _ _ _ _ _ Hall Hd).
Qed.

Lemma collect_funcs_last_section_wins_witness :
  ∃ d, collect_funcs FuncDiffExample.AsmFunction FuncDiffExample.mkFunction
         FuncDiffExample.fname FuncDiffExample.vendor_sections [] = inr d
       ∧ dict_get "text.bar:" d
         = Some ["text.bar:"; "   0: 4501  li a0,0"; "   2: 8082  ret"]
       ∧ dict_get "comment:" d = None.
Proof.
  destruct (proj2 (collect_funcs_last_section_wins FuncDiffExample.mkFunction
                     FuncDiffExample.fname FuncDiffExample.vendor_sections))
    as (d & Hd & _ & Hlast & Hnone).
  - intros Hin. repeat (apply elem_of_cons in Hin as [Hin|Hin];
                        [discriminate Hin|]).
    by apply elem_of_nil in Hin.
  - exists d. split; [exact Hd|]. split.
    + apply (Hlast [ ["text.foo:"; "   0: 8082  ret"];
                     ["comment:"; "   0: 4347  .word"] ]
                   ["text.bar:"; "   0: 4501  li a0,0"; "   2: 8082  ret"] []).
      * reflexivity.
      * reflexivity.
      * apply Forall_nil_2.
    + apply Hnone. repeat (apply Forall_cons_2; [|]); try apply Forall_nil_2.
      * intros _. discriminate.
      * intros Hcode. discriminate Hcode.
      * intros _. discriminate.
Defined.

Section CandidateOnly.

Context {AsmFunction : Type}.
Variable mkFunction : list string → AsmFunction.
Variable fname : AsmFunction → string.
Variable equivalent : AsmFunction → AsmFunction → bool.
Variable make_diff_table : AsmFunction → AsmFunction → string * Q.
Variable listing : AsmFunction → string.
Variable details : string → string → string → Q → string → string.

Lemma diff_loop_agree objname re_funcs re_funcs' vendor_funcs acc :
  (∀ n, n ∈ dict_keys vendor_funcs →
        dict_get n re_funcs' = dict_get n re_funcs) →
  diff_loop AsmFunction equivalent make_diff_table listing details objname
    re_funcs' vendor_funcs acc
  = diff_loop AsmFunction equivalent make_diff_table listing details objname
      re_funcs vendor_funcs acc.
Proof.
  unfold diff_loop. revert acc.
  induction vendor_funcs as [|[n vf] rest IH]; intros acc Hagree; [done|].
  cbn [fold_left]. destruct acc as [html sims].
  assert (diff_function AsmFunction equivalent make_diff_table listing
            re_funcs' n vf
          = diff_function AsmFunction equivalent make_diff_table listing
              re_funcs n vf) as ->.
  { unfold diff_function. rewrite (Hagree n); [done|].
    unfold dict_keys. cbn. apply list_elem_of_here. }
  apply IH. intros m Hm. apply Hagree.
  unfold dict_keys in *. cbn. by apply list_elem_of_further.
Qed.

End CandidateOnly.

(** X18. A function that only the candidate object has does not change
    the comparison: appending to the candidate's disassembly a code
    section whose function name no vendor function bears leaves the
    result of [diff_objects] as it was. *)
Theorem candidate_only_function_is_ignored {AsmFunction : Type}
  (mkFunction : list string → AsmFunction) (fname : AsmFunction → string)
  (equivalent : AsmFunction → AsmFunction → bool)
  (make_diff_table : AsmFunction → AsmFunction → string * Q)
  (listing : AsmFunction → string)
  (details : string → string → string → Q → string → string)
  (objname : string) (vendor_sections re_sections : list (list string))
  (vendor_funcs : odict string AsmFunction) (lines : list string) :
  collect_funcs AsmFunction mkFunction fname vendor_sections []
  = inr vendor_funcs →
  [] ∉ re_sections →
  code_section lines = true →
  fname (mkFunction lines) ∉ dict_keys vendor_funcs →
  diff_objects AsmFunction mkFunction fname equivalent make_diff_table
    listing details objname vendor_sections (re_sections ++ [lines])%list
  = diff_objects AsmFunction mkFunction fname equivalent make_diff_table
      listing details objname vendor_sections re_sections.
Proof.
  intros Hv Hne Hcode Hnew. unfold diff_objects. rewrite Hv.
  destruct (collect_funcs_total mkFunction fname re_sections [] Hne)
    as [re_funcs Hre].
  rewrite collect_funcs_app, Hre. cbn.
  destruct lines as [|l0 rest]; [done|]. cbn in Hcode. rewrite Hcode. cbn.
  rewrite (diff_loop_agree equivalent make_diff_table listing details objname
             re_funcs); [done|].
  intros n Hn. apply dict_get_set_ne. by intros ->.
Qed.

Lemma candidate_only_function_is_ignored_witness :
  diff_objects FuncDiffExample.AsmFunction FuncDiffExample.mkFunction
    FuncDiffExample.fname FuncDiffExample.equivalent
    FuncDiffExample.make_diff_table FuncDiffExample.listing
    FuncDiffExample.details "obj.o" FuncDiffExample.vendor_sections
    (FuncDiffExample.re_sections ++ [["text.extra:"; "   0: 8082  ret"]])%list
  = diff_objects FuncDiffExample.AsmFunction FuncDiffExample.mkFunction
      FuncDiffExample.fname FuncDiffExample.equivalent
      FuncDiffExample.make_diff_table FuncDiffExample.listing
      FuncDiffExample.details "obj.o" FuncDiffExample.vendor_sections
      FuncDiffExample.re_sections.
Proof.
  apply (candidate_only_function_is_ignored FuncDiffExample.mkFunction
           FuncDiffExample.fname FuncDiffExample.equivalent
           FuncDiffExample.make_diff_table FuncDiffExample.listing
           FuncDiffExample.details "obj.o" FuncDiffExample.vendor_sections
           FuncDiffExample.re_sections
           [("text.foo:", ["text.foo:"; "   0: 8082  ret"]);
            ("text.bar:", ["text.bar:"; "   0: 4501  li a0,0";
                           "   2: 8082  ret"])]).
  - reflexivity.
  - intros Hin. apply elem_of_cons in Hin as [Hin|Hin]; [discriminate Hin|].
    by apply elem_of_nil in Hin.
  - reflexivity.
  - intros Hin. cbn in Hin.
    repeat (apply elem_of_cons in Hin as [Hin|Hin]; [discriminate Hin|]).
    by apply elem_of_nil in Hin.
Defined.
